(** * The undo system of the animation editor

    A shallow embedding of [Animations/src/editor/UndoSystem.cpp]: the ring
    buffer of commands ([UndoSystemData]), the two command classes
    ([ModifyU8Vec4Command], [ApplyU8Vec4ToChildrenCommand]) and the entry
    points of the [UndoSystem] namespace, followed by the properties the
    specification states about them.

    Conventions of the embedding:
    - [uint32] fields are integers in [Z]; every arithmetic operation on them
      is followed by its wrap-around [u32].
    - [Command** history] is a list of slots; a slot holds [Some c] while the
      command object it points to is alive and [None] when it was never
      constructed or has been destroyed ([~Command()] and [g_memory_free]).
    - the [AnimationManagerData*] the system keeps is a pointer to a store
      shared with the rest of the editor: the store is threaded through every
      operation explicitly, next to the undo system itself.
    - dereferencing a dead slot, indexing outside the slot array and a failed
      [g_logger_assert] are faults; every operation returns an [outcome].
    - [%] on [uint32] is [Z.modulo]; the divisor is [maxHistorySize], which
      is greater than 1 in every log [init] returns. *)

From Stdlib Require Import ZArith Lia Init.Byte.
From stdpp Require Import base option list gmap.

Local Open Scope Z_scope.

(** ** Outcomes *)

Inductive fault : Type :=
  | AssertionFailure   (* g_logger_assert with a false condition: fatal *)
  | DeadCommand        (* a slot whose command is not alive is dereferenced *)
  | OutOfBounds        (* the slot array is indexed past its end *)
  | FuelExhausted.     (* a loop of the model ran out of fuel *)

Inductive outcome (A : Type) : Type :=
  | Done (a : A)
  | Fault (f : fault).
Arguments Done {A} a.
Arguments Fault {A} f.

#[global] Instance outcome_bind : MBind outcome :=
  fun A B (k : A -> outcome B) (o : outcome A) =>
    match o with
    | Done a => k a
    | Fault f => Fault f
    end.

(** ** Values and the animation store *)

Definition u32 (z : Z) : Z := z mod 2 ^ 32.

(** [INT_MAX]: [init] receives the history size as an [int]. *)
Definition INT_MAX : Z := 2 ^ 31 - 1.

(** Object identifiers are integers. *)
Abbreviation AnimObjId := Z.

(** [glm::u8vec4]: four unsigned bytes. *)
Record u8vec4 : Type := mkU8Vec4 { vx : byte; vy : byte; vz : byte; vw : byte }.

(** [U8Vec4PropType] is declared in [editor/UndoSystem.h]; these are the
    cases the commands switch over. *)
Inductive U8Vec4PropType : Type := FillColor | StrokeColor.

(** The two fields of [AnimObject] the commands read and write. *)
Record AnimObject : Type := mkAnimObject {
  _fillColorStart : u8vec4;
  _strokeColorStart : u8vec4
}.

Definition set_fillColorStart (v : u8vec4) (o : AnimObject) : AnimObject :=
  {| _fillColorStart := v; _strokeColorStart := _strokeColorStart o |}.

Definition set_strokeColorStart (v : u8vec4) (o : AnimObject) : AnimObject :=
  {| _fillColorStart := _fillColorStart o; _strokeColorStart := v |}.

(** Modelled from the spec: [AnimationManagerData], the store of the
    animation manager, is declared in [animation/AnimationManager.h], which
    is not among the sources at hand. The store resolves identifiers to
    mutable objects, records each change notification it receives, and owns
    the parent/child relation the descendant traversal walks. *)
Record AnimationManagerData : Type := mkAM {
  objects : gmap AnimObjId AnimObject;
  childrenOf : gmap AnimObjId (list AnimObjId);
  stateUpdates : list AnimObjId
}.

(** Modelled from the spec: [AnimationManager::getMutableObject], whose body
    is not among the sources; it resolves an identifier to the current
    mutable record of the object, or reports its absence. *)
Definition getMutableObject (am : AnimationManagerData) (id : AnimObjId)
  : option AnimObject := objects am !! id.

(** A write through the pointer [getMutableObject] returned. *)
Definition writeObject (am : AnimationManagerData) (id : AnimObjId)
    (o : AnimObject) : AnimationManagerData :=
  {| objects := <[id := o]> (objects am);
     childrenOf := childrenOf am;
     stateUpdates := stateUpdates am |}.

(** Modelled from the spec: [AnimationManager::updateObjectState], whose body
    is not among the sources; it tells the store that the state derived from
    the object is to be recomputed. The store keeps the notifications in the
    order it receives them. *)
Definition updateObjectState (am : AnimationManagerData) (id : AnimObjId)
  : AnimationManagerData :=
  {| objects := objects am;
     childrenOf := childrenOf am;
     stateUpdates := stateUpdates am ++ [id] |}.

(** Modelled from the spec: the children of an object in the parent/child
    relation of the store; the accessor is not among the sources. *)
Definition getChildren (am : AnimationManagerData) (id : AnimObjId)
  : list AnimObjId := default [] (childrenOf am !! id).

(** Modelled from the spec: the breadth-first iterator of [AnimObject], whose
    body is not among the sources. A level-order walk with a work queue: an
    identifier is emitted when it leaves the queue and its children join the
    back of the queue. *)
Fixpoint breadthFirstWalk (fuel : nat) (am : AnimationManagerData)
    (queue : list AnimObjId) : list AnimObjId :=
  match fuel, queue with
  | S fuel', x :: rest => x :: breadthFirstWalk fuel' am (rest ++ getChildren am x)
  | _, _ => []
  end.

(** Modelled from the spec: the traversal is finite. In a forest every
    identifier leaves the queue once, so the number of parent/child edges
    bounds the walk. *)
Definition edgeCount (am : AnimationManagerData) : nat :=
  map_fold (fun _ (cs : list AnimObjId) (n : nat) => (length cs + n)%nat) 0%nat
           (childrenOf am).

(** Modelled from the spec: [obj->beginBreadthFirst(am) ... obj->end()],
    whose bodies are not among the sources: the descendants of the object in
    breadth-first order, the object itself excluded, as the relation is when
    the traversal starts. Colour writes do not change the relation, so the
    identifiers a loop visits are those of the walk taken when it starts. *)
Definition descendantsBreadthFirst (am : AnimationManagerData) (id : AnimObjId)
  : list AnimObjId := breadthFirstWalk (edgeCount am) am (getChildren am id).

(** ** Commands *)

Inductive Command : Type :=
  | ModifyU8Vec4Command (objId : AnimObjId) (oldVec newVec : u8vec4)
                        (propType : U8Vec4PropType)
  | ApplyU8Vec4ToChildrenCommand (objId : AnimObjId) (propType : U8Vec4PropType)
                                 (oldProps : gmap AnimObjId u8vec4).

Definition commandTarget (c : Command) : AnimObjId :=
  match c with
  | ModifyU8Vec4Command objId _ _ _ => objId
  | ApplyU8Vec4ToChildrenCommand objId _ _ => objId
  end.

Definition getProp (propType : U8Vec4PropType) (o : AnimObject) : u8vec4 :=
  match propType with
  | FillColor => _fillColorStart o
  | StrokeColor => _strokeColorStart o
  end.

Definition setProp (propType : U8Vec4PropType) (v : u8vec4) (o : AnimObject)
  : AnimObject :=
  match propType with
  | FillColor => set_fillColorStart v o
  | StrokeColor => set_strokeColorStart v o
  end.

Definition ModifyU8Vec4Command_execute (objId : AnimObjId) (newVec : u8vec4)
    (propType : U8Vec4PropType) (am : AnimationManagerData)
  : AnimationManagerData :=
  match getMutableObject am objId with
  | Some obj =>
      let obj' :=
        match propType with
        | FillColor => set_fillColorStart newVec obj
        | StrokeColor => set_strokeColorStart newVec obj
        end in
      updateObjectState (writeObject am objId obj') objId
  | None => am
  end.

Definition ModifyU8Vec4Command_undo (objId : AnimObjId) (oldVec : u8vec4)
    (propType : U8Vec4PropType) (am : AnimationManagerData)
  : AnimationManagerData :=
  match getMutableObject am objId with
  | Some obj =>
      let obj' :=
        match propType with
        | FillColor => set_fillColorStart oldVec obj
        | StrokeColor => set_strokeColorStart oldVec obj
        end in
      updateObjectState (writeObject am objId obj') objId
  | None => am
  end.

(** One iteration of the loop of [ApplyU8Vec4ToChildrenCommand::execute].
    [obj] is a pointer to the target: its fields are read from the store as
    it is when the iteration runs. *)
Definition applyToChild (objId : AnimObjId) (propType : U8Vec4PropType)
    (st : gmap AnimObjId u8vec4 * AnimationManagerData) (childId : AnimObjId)
  : gmap AnimObjId u8vec4 * AnimationManagerData :=
  let '(oldProps, am) := st in
  match getMutableObject am childId, getMutableObject am objId with
  | Some childObj, Some obj =>
      match propType with
      | FillColor =>
          (<[childId := _fillColorStart childObj]> oldProps,
           writeObject am childId (set_fillColorStart (_fillColorStart obj) childObj))
      | StrokeColor =>
          (<[childId := _strokeColorStart childObj]> oldProps,
           writeObject am childId (set_fillColorStart (_strokeColorStart obj) childObj))
      end
  | _, _ => st
  end.

Definition ApplyU8Vec4ToChildrenCommand_execute (objId : AnimObjId)
    (propType : U8Vec4PropType) (oldProps : gmap AnimObjId u8vec4)
    (am : AnimationManagerData)
  : gmap AnimObjId u8vec4 * AnimationManagerData :=
  match getMutableObject am objId with
  | Some _ =>
      let '(oldProps', am') :=
        foldl (applyToChild objId propType) (oldProps, am)
              (descendantsBreadthFirst am objId) in
      (oldProps', updateObjectState am' objId)
  | None => (oldProps, am)
  end.

(** One iteration of the loop of [ApplyU8Vec4ToChildrenCommand::undo]. *)
Definition restoreChild (propType : U8Vec4PropType)
    (oldProps : gmap AnimObjId u8vec4) (am : AnimationManagerData)
    (childId : AnimObjId) : AnimationManagerData :=
  match getMutableObject am childId with
  | Some childObj =>
      match oldProps !! childId with
      | Some v =>
          match propType with
          | FillColor => writeObject am childId (set_fillColorStart v childObj)
          | StrokeColor => writeObject am childId (set_strokeColorStart v childObj)
          end
      | None => am
      end
  | None => am
  end.

Definition ApplyU8Vec4ToChildrenCommand_undo (objId : AnimObjId)
    (propType : U8Vec4PropType) (oldProps : gmap AnimObjId u8vec4)
    (am : AnimationManagerData) : AnimationManagerData :=
  match getMutableObject am objId with
  | Some _ =>
      updateObjectState
        (foldl (restoreChild propType oldProps) am (descendantsBreadthFirst am objId))
        objId
  | None => am
  end.

(** Virtual dispatch of [Command::execute]; the command is returned because
    [ApplyU8Vec4ToChildrenCommand::execute] writes its own [oldProps]. *)
Definition Command_execute (c : Command) (am : AnimationManagerData)
  : Command * AnimationManagerData :=
  match c with
  | ModifyU8Vec4Command objId oldVec newVec propType =>
      (c, ModifyU8Vec4Command_execute objId newVec propType am)
  | ApplyU8Vec4ToChildrenCommand objId propType oldProps =>
      let '(oldProps', am') :=
        ApplyU8Vec4ToChildrenCommand_execute objId propType oldProps am in
      (ApplyU8Vec4ToChildrenCommand objId propType oldProps', am')
  end.

(** Virtual dispatch of [Command::undo]. *)
Definition Command_undo (c : Command) (am : AnimationManagerData)
  : AnimationManagerData :=
  match c with
  | ModifyU8Vec4Command objId oldVec newVec propType =>
      ModifyU8Vec4Command_undo objId oldVec propType am
  | ApplyU8Vec4ToChildrenCommand objId propType oldProps =>
      ApplyU8Vec4ToChildrenCommand_undo objId propType oldProps am
  end.

(** ** The undo system *)

Record UndoSystemData : Type := mkUndoSystemData {
  history : list (option Command);
  (* The total number of commands that we can redo up to *)
  numCommands : Z;
  (* The offset where the current undo ptr is set *)
  undoCursorTail : Z;
  (* The offset for undo history beginning *)
  undoCursorHead : Z;
  maxHistorySize : Z
}.

(** [history[i]->...]: the command a slot points to. *)
Definition slot (hist : list (option Command)) (i : Z) : outcome Command :=
  match hist !! Z.to_nat i with
  | Some (Some c) => Done c
  | Some None => Fault DeadCommand
  | None => Fault OutOfBounds
  end.

(** [history[i]->~Command(); g_memory_free(history[i]);] *)
Definition destroyCommand (hist : list (option Command)) (i : Z)
  : outcome (list (option Command)) :=
  _ ← slot hist i; Done (<[Z.to_nat i := None]> hist).

(** [history[i] = command;] *)
Definition storeCommand (hist : list (option Command)) (i : Z) (c : Command)
  : outcome (list (option Command)) :=
  if decide (Z.to_nat i < length hist)%nat
  then Done (<[Z.to_nat i := Some c]> hist)
  else Fault OutOfBounds.

Module UndoSystem.

(** [init(am, maxHistory)]. The slots come from [g_memory_allocate]: none
    of them points to a command yet. *)
Definition init (maxHistory : Z) : outcome UndoSystemData :=
  if 1 <? maxHistory then
    Done {| history := replicate (Z.to_nat maxHistory) None;
            numCommands := 0;
            undoCursorTail := 0;
            undoCursorHead := 0;
            maxHistorySize := u32 maxHistory |}
  else Fault AssertionFailure.

(** The loop of [free]: from the head up to, excluding,
    [(undoCursorHead + numCommands) % maxHistorySize]. *)
Fixpoint freeCommands (fuel : nat) (hist : list (option Command))
    (i stop maxHistorySize : Z) : outcome (list (option Command)) :=
  if i =? stop then Done hist
  else
    match fuel with
    | O => Fault FuelExhausted
    | S fuel' =>
        (* Don't free the tail, nothing ever gets placed there *)
        if i =? stop then Done hist
        else
          hist' ← destroyCommand hist i;
          freeCommands fuel' hist' (u32 (i + 1) mod maxHistorySize) stop
                       maxHistorySize
    end.

(** [free(us)]. The slot array and the system itself are released after the
    loop; the result is the slot array as it is when it is released. *)
Definition free (us : UndoSystemData) : outcome (list (option Command)) :=
  freeCommands (Z.to_nat (maxHistorySize us)) (history us) (undoCursorHead us)
    (u32 (undoCursorHead us + numCommands us) mod maxHistorySize us)
    (maxHistorySize us).

Definition undo (us : UndoSystemData) (am : AnimationManagerData)
  : outcome (UndoSystemData * AnimationManagerData) :=
  (* No commands to undo *)
  if undoCursorHead us =? undoCursorTail us then Done (us, am)
  else
    let offsetToUndo := u32 (undoCursorTail us - 1) in
    (* Wraparound behavior *)
    let offsetToUndo :=
      if undoCursorTail us =? 0 then u32 (maxHistorySize us - 1)
      else offsetToUndo in
    c ← slot (history us) offsetToUndo;
    let am' := Command_undo c am in
    Done ({| history := history us;
             numCommands := numCommands us;
             undoCursorTail := offsetToUndo;
             undoCursorHead := undoCursorHead us;
             maxHistorySize := maxHistorySize us |}, am').

Definition redo (us : UndoSystemData) (am : AnimationManagerData)
  : outcome (UndoSystemData * AnimationManagerData) :=
  (* No commands to redo *)
  if u32 (undoCursorHead us + numCommands us) mod maxHistorySize us
     =? undoCursorTail us
  then Done (us, am)
  else
    let offsetToRedo := undoCursorTail us in
    c ← slot (history us) offsetToRedo;
    let '(c', am') := Command_execute c am in
    Done ({| history := <[Z.to_nat offsetToRedo := Some c']> (history us);
             numCommands := numCommands us;
             undoCursorTail := u32 (undoCursorTail us + 1) mod maxHistorySize us;
             undoCursorHead := undoCursorHead us;
             maxHistorySize := maxHistorySize us |}, am').

(** The first loop of [pushAndExecuteCommand]: from [i] up to, excluding,
    [stop = (undoCursorHead + numCommands) % maxHistorySize], which no
    iteration changes. The [break] inside the body repeats the loop test. *)
Fixpoint removeAfterTail (fuel : nat) (hist : list (option Command))
    (i stop maxHistorySize numCommandsRemoved : Z)
  : outcome (list (option Command) * Z) :=
  if i =? stop then Done (hist, numCommandsRemoved)
  else
    match fuel with
    | O => Fault FuelExhausted
    | S fuel' =>
        if i =? stop then Done (hist, numCommandsRemoved)
        else
          hist' ← destroyCommand hist i;
          removeAfterTail fuel' hist' (u32 (i + 1) mod maxHistorySize) stop
                          maxHistorySize (u32 (numCommandsRemoved + 1))
    end.

Definition pushAndExecuteCommand (us : UndoSystemData) (command : Command)
    (am : AnimationManagerData)
  : outcome (UndoSystemData * AnimationManagerData) :=
  (* Remove any commands after the current tail *)
  '(hist1, numCommandsRemoved) ←
    removeAfterTail (Z.to_nat (maxHistorySize us)) (history us)
      (undoCursorTail us)
      (u32 (undoCursorHead us + numCommands us) mod maxHistorySize us)
      (maxHistorySize us) 0;
  (* Set the number of commands to the appropriate number now *)
  let num1 := u32 (numCommands us - numCommandsRemoved) in
  '(hist2, head2, num2) ←
    (if u32 (undoCursorTail us + 1) mod maxHistorySize us =? undoCursorHead us
     then
       hist2 ← destroyCommand hist1 (undoCursorHead us);
       Done (hist2, u32 (undoCursorHead us + 1) mod maxHistorySize us,
             u32 (num1 - 1))
     else Done (hist1, undoCursorHead us, num1));
  let offsetToPlaceNewCommand := undoCursorTail us in
  hist3 ← storeCommand hist2 offsetToPlaceNewCommand command;
  let num3 := u32 (num2 + 1) in
  let tail3 := u32 (undoCursorTail us + 1) mod maxHistorySize us in
  c ← slot hist3 offsetToPlaceNewCommand;
  let '(c', am') := Command_execute c am in
  Done ({| history := <[Z.to_nat offsetToPlaceNewCommand := Some c']> hist3;
           numCommands := num3;
           undoCursorTail := tail3;
           undoCursorHead := head2;
           maxHistorySize := maxHistorySize us |}, am').

Definition applyU8Vec4ToChildren (us : UndoSystemData) (id : AnimObjId)
    (propType : U8Vec4PropType) (am : AnimationManagerData)
  : outcome (UndoSystemData * AnimationManagerData) :=
  let newCommand := ApplyU8Vec4ToChildrenCommand id propType ∅ in
  pushAndExecuteCommand us newCommand am.

Definition setU8Vec4Prop (us : UndoSystemData) (objId : AnimObjId)
    (oldVec newVec : u8vec4) (propType : U8Vec4PropType)
    (am : AnimationManagerData)
  : outcome (UndoSystemData * AnimationManagerData) :=
  let newCommand := ModifyU8Vec4Command objId oldVec newVec propType in
  pushAndExecuteCommand us newCommand am.

(** Both bodies are empty. *)
Definition addNewObjToScene (us : UndoSystemData) (obj : AnimObject)
    (am : AnimationManagerData)
  : outcome (UndoSystemData * AnimationManagerData) := Done (us, am).

Definition removeObjFromScene (us : UndoSystemData) (objId : AnimObjId)
    (am : AnimationManagerData)
  : outcome (UndoSystemData * AnimationManagerData) := Done (us, am).

End UndoSystem.

(** ** Running sequences of operations *)

Inductive Op : Type :=
  | OpRecord (c : Command)
  | OpUndo
  | OpRedo.

Definition step (o : Op) (st : UndoSystemData * AnimationManagerData)
  : outcome (UndoSystemData * AnimationManagerData) :=
  match o with
  | OpRecord c => UndoSystem.pushAndExecuteCommand st.1 c st.2
  | OpUndo => UndoSystem.undo st.1 st.2
  | OpRedo => UndoSystem.redo st.1 st.2
  end.

Fixpoint run (ops : list Op) (st : UndoSystemData * AnimationManagerData)
  : outcome (UndoSystemData * AnimationManagerData) :=
  match ops with
  | [] => Done st
  | o :: ops' => st' ← step o st; run ops' st'
  end.

(** The commands the log retains, oldest first: the live slots of
    [[undoCursorHead, undoCursorHead + numCommands)]. *)
Definition retained (us : UndoSystemData) : list Command :=
  omap (fun k : nat =>
          mjoin (history us !! Z.to_nat ((undoCursorHead us + Z.of_nat k)
                                         mod maxHistorySize us)))
       (seq 0 (Z.to_nat (numCommands us))).

(** How many of the retained commands are applied, that is, undoable. *)
Definition applied (us : UndoSystemData) : Z :=
  (undoCursorTail us - undoCursorHead us) mod maxHistorySize us.

Definition red : u8vec4 := mkU8Vec4 xff x00 x00 xff.
Definition blue : u8vec4 := mkU8Vec4 x00 x00 xff xff.
Definition green : u8vec4 := mkU8Vec4 x00 xff x00 xff.
Definition yellow : u8vec4 := mkU8Vec4 xff xff x00 xff.


(** ** Well-formed logs *)

Definition isLive (hist : list (option Command)) (j : Z) : bool :=
  match hist !! Z.to_nat j with
  | Some (Some _) => true
  | _ => false
  end.

(** The invariant of the ring buffer, as a check that runs: the cursors are
    indices, the tail lies in the window that starts at the head, and a slot
    is live exactly when it lies in that window. *)
Definition wfb (us : UndoSystemData) : bool :=
  (2 <=? maxHistorySize us) && (maxHistorySize us <=? INT_MAX)
  && (length (history us) =? Z.to_nat (maxHistorySize us))%nat
  && (0 <=? undoCursorHead us) && (undoCursorHead us <? maxHistorySize us)
  && (0 <=? undoCursorTail us) && (undoCursorTail us <? maxHistorySize us)
  && (0 <=? numCommands us) && (numCommands us <=? maxHistorySize us - 1)
  && (applied us <=? numCommands us)
  && forallb (fun j => Bool.eqb (isLive (history us) j)
                         ((j - undoCursorHead us) mod maxHistorySize us
                          <? numCommands us))
             (seqZ 0 (maxHistorySize us)).

Definition wf (us : UndoSystemData) : Prop := wfb us = true.

(** The slot array seen as a list: slot [j] holds the command of [l] at the
    cyclic distance of [j] from the head [h], when there is one, and is dead
    otherwise. *)
Definition slots_of (hist : list (option Command)) (m h : Z) (l : list Command)
  : Prop :=
  length hist = Z.to_nat m /\
  forall j, 0 <= j < m ->
    hist !! Z.to_nat j = Some (l !! Z.to_nat ((j - h) mod m)).

(** The log seen as a list: [l] are the retained commands, oldest first, and
    the first [a] of them are applied. *)
Definition represents (us : UndoSystemData) (l : list Command) (a : nat) : Prop :=
  2 <= maxHistorySize us <= INT_MAX /\
  0 <= undoCursorHead us < maxHistorySize us /\
  numCommands us = Z.of_nat (length l) /\
  Z.of_nat (length l) <= maxHistorySize us - 1 /\
  (a <= length l)%nat /\
  undoCursorTail us = (undoCursorHead us + Z.of_nat a) mod maxHistorySize us /\
  slots_of (history us) (maxHistorySize us) (undoCursorHead us) l.

(** The cursors and the count: the bookkeeping of the log. *)
Definition cursors (us : UndoSystemData) : Z * Z * Z :=
  (undoCursorHead us, undoCursorTail us, numCommands us).

(** [execute] called on each command in turn: the commands as their
    [execute] leaves them, and the store after the last call. *)
Fixpoint executeAll (cs : list Command) (am : AnimationManagerData)
  : list Command * AnimationManagerData :=
  match cs with
  | [] => ([], am)
  | c :: cs' =>
      let '(c', am1) := Command_execute c am in
      let '(r, am2) := executeAll cs' am1 in
      (c' :: r, am2)
  end.

(** [undo] called on each command in turn. *)
Definition undoAll (cs : list Command) (am : AnimationManagerData)
  : AnimationManagerData :=
  foldl (fun am' c => Command_undo c am') am cs.

(** The last [n] elements of a list. *)
Definition keepLast {A} (n : nat) (l : list A) : list A :=
  drop (length l - n) l.

(** A store and a log to run the operations on: object 1 is the parent of
    objects 2 and 3, and 3 is the parent of 4. *)
Definition sampleStore : AnimationManagerData :=
  {| objects := {[ 1 := mkAnimObject red blue;
                   2 := mkAnimObject green yellow;
                   3 := mkAnimObject yellow green;
                   4 := mkAnimObject blue red ]};
     childrenOf := {[ 1 := [2; 3]; 3 := [4] ]};
     stateUpdates := [] |}.

Definition freshLog (maxHistory : Z) : UndoSystemData :=
  {| history := replicate (Z.to_nat maxHistory) None;
     numCommands := 0;
     undoCursorTail := 0;
     undoCursorHead := 0;
     maxHistorySize := maxHistory |}.

Definition sampleCommand (i : Z) : Command :=
  ModifyU8Vec4Command i red blue FillColor.

(** The objects of the store after one property of one object is written,
    when the object is there. *)
Definition writeProp (propType : U8Vec4PropType) (v : u8vec4) (id : AnimObjId)
    (objs : gmap AnimObjId AnimObject) : gmap AnimObjId AnimObject :=
  match objs !! id with
  | Some o => <[id := setProp propType v o]> objs
  | None => objs
  end.

(** A log with one applied command and two undone ones. *)
Definition sampleLog : UndoSystemData :=
  {| history := [Some (sampleCommand 1); Some (sampleCommand 2);
                 Some (sampleCommand 3); None];
     numCommands := 3;
     undoCursorTail := 1;
     undoCursorHead := 0;
     maxHistorySize := 4 |}.

(** What the undo of the cascading command leaves of an object it visits:
    the recorded value in the selected property when the snapshot has one. *)
Definition restored (propType : U8Vec4PropType)
    (oldProps : gmap AnimObjId u8vec4) (d : AnimObjId)
    (oo : option AnimObject) : option AnimObject :=
  match oo with
  | Some o =>
      Some (match oldProps !! d with
            | Some v => setProp propType v o
            | None => o
            end)
  | None => None
  end.

(** The snapshot a command carries: [oldProps] of the cascading command. *)
Definition snapshotOf (c : Command) : gmap AnimObjId u8vec4 :=
  match c with
  | ModifyU8Vec4Command _ _ _ _ => ∅
  | ApplyU8Vec4ToChildrenCommand _ _ oldProps => oldProps
  end.

(** The rest of the editor at work between two operations of the log:
    object 3 is detached from object 1, and later attached again with a new
    fill colour. *)
Definition detachObject3 (am : AnimationManagerData) : AnimationManagerData :=
  {| objects := objects am;
     childrenOf := {[ 1 := [2] ]};
     stateUpdates := stateUpdates am |}.

Definition attachObject3 (am : AnimationManagerData) : AnimationManagerData :=
  {| objects := <[3 := mkAnimObject blue green]> (objects am);
     childrenOf := {[ 1 := [2; 3]; 3 := [4] ]};
     stateUpdates := stateUpdates am |}.

(** The cascading command executed on [sampleStore], undone, executed again
    while object 3 is detached, and the store with object 3 attached again. *)
Definition cascadeOnce : Command * AnimationManagerData :=
  Command_execute (ApplyU8Vec4ToChildrenCommand 1 FillColor ∅) sampleStore.

Definition cascadeDetached : AnimationManagerData :=
  detachObject3 (Command_undo (cascadeOnce.1) (cascadeOnce.2)).

Definition cascadeTwice : Command * AnimationManagerData :=
  Command_execute (cascadeOnce.1) cascadeDetached.

Definition cascadeAttached : AnimationManagerData :=
  attachObject3 (cascadeTwice.2).

(** A store in which object 1 has a child, 2, that is not in the store, and
    one, 3, that is. *)
Definition storeWithMissingChild : AnimationManagerData :=
  {| objects := {[ 1 := mkAnimObject red blue; 3 := mkAnimObject yellow green ]};
     childrenOf := {[ 1 := [2; 3] ]};
     stateUpdates := [] |}.

(** ** Arithmetic of the ring *)

Lemma u32_small z : 0 <= z < 2 ^ 32 -> u32 z = z.
Proof. intros H. unfold u32. apply Z.mod_small. lia. Qed.

Lemma mod_cases x m :
  0 < m -> - m <= x < 2 * m ->
  x mod m = if x <? 0 then x + m else if x <? m then x else x - m.
Proof.
  intros Hm Hx.
  destruct (Z.ltb_spec x 0); [|destruct (Z.ltb_spec x m)].
  - symmetry. apply (Z.mod_unique_pos _ _ (-1)); lia.
  - apply Z.mod_small; lia.
  - symmetry. apply (Z.mod_unique_pos _ _ 1); lia.
Qed.

Ltac ring_step :=
  match goal with
  | H : context [?x mod ?m] |- _ => rewrite (mod_cases x m) in H by lia
  | |- context [?x mod ?m] => rewrite (mod_cases x m) by lia
  | H : context [?x <? ?y] |- _ => destruct (Z.ltb_spec x y); cbv iota in *
  | |- context [?x <? ?y] => destruct (Z.ltb_spec x y); cbv iota in *
  end.

Ltac ring_cases := repeat ring_step; try lia; try reflexivity.

Lemma isLive_slot hist j :
  isLive hist j = true -> exists c, slot hist j = Done c.
Proof.
  unfold isLive, slot. destruct (hist !! Z.to_nat j) as [[c|]|]; try discriminate.
  eauto.
Qed.

Lemma lookup_slot hist j c :
  hist !! Z.to_nat j = Some (Some c) -> slot hist j = Done c.
Proof. unfold slot. intros ->. reflexivity. Qed.

(** ** The truncation loop *)

Lemma removeAfterTail_spec m stop :
  0 < m <= INT_MAX -> 0 <= stop < m ->
  forall fuel hist i removed,
    0 <= i < m -> length hist = Z.to_nat m ->
    (stop - i) mod m <= Z.of_nat fuel ->
    0 <= removed -> removed + (stop - i) mod m < 2 ^ 32 ->
    (forall j, 0 <= j < m -> (j - i) mod m < (stop - i) mod m ->
               isLive hist j = true) ->
    exists hist',
      UndoSystem.removeAfterTail fuel hist i stop m removed
      = Done (hist', removed + (stop - i) mod m)
      /\ length hist' = Z.to_nat m
      /\ forall j, 0 <= j < m ->
           hist' !! Z.to_nat j
           = if (j - i) mod m <? (stop - i) mod m then Some None
             else hist !! Z.to_nat j.
Proof.
  intros Hm Hstop. unfold INT_MAX in Hm.
  induction fuel as [|fuel IH]; intros hist i removed Hi Hlen Hfuel Hrem Hsum Hlive.
  - assert (i = stop) as -> by (ring_cases).
    exists hist. cbn. rewrite Z.eqb_refl.
    replace ((stop - stop) mod m) with 0 by (ring_cases).
    rewrite Z.add_0_r. repeat split; [done|].
    intros j Hj. ring_cases.
  - cbn. destruct (Z.eqb_spec i stop) as [->|Hne].
    + exists hist. replace ((stop - stop) mod m) with 0 by (ring_cases).
      rewrite Z.add_0_r. repeat split; [done|]. intros j Hj. ring_cases.
    + destruct (isLive_slot hist i) as [c Hc].
      { apply Hlive; [lia|]. ring_cases. }
      unfold destroyCommand. rewrite Hc. cbn.
      rewrite (u32_small (i + 1)) by lia.
      rewrite (u32_small (removed + 1)) by (ring_cases).
      destruct (IH (<[Z.to_nat i := None]> hist) ((i + 1) mod m) (removed + 1))
        as (hist' & Hrun & Hlen' & Hget).
      * ring_cases.
      * rewrite length_insert. done.
      * ring_cases.
      * lia.
      * ring_cases.
      * intros j Hj Hd. assert (j <> i) by (ring_cases).
        unfold isLive. rewrite list_lookup_insert_ne by lia.
        apply Hlive; [lia|]. ring_cases.
      * exists hist'. split; [|split; [done|]].
        { rewrite Hrun. f_equal. f_equal. ring_cases. }
        intros j Hj. rewrite (Hget j Hj).
        destruct (decide (j = i)) as [->|Hji].
        { rewrite list_lookup_insert_eq by lia. ring_cases. }
        rewrite list_lookup_insert_ne by lia. ring_cases.
Qed.

(** ** The slot array as a list of retained commands *)

Lemma ring_shift j h a m :
  0 < m -> 0 <= j < m -> 0 <= h < m -> 0 <= a < m ->
  (j - (h + a) mod m) mod m = ((j - h) mod m - a) mod m.
Proof. intros. ring_cases. Qed.

Lemma ring_back h k m :
  0 < m -> 0 <= h < m -> 0 <= k < m -> ((h + k) mod m - h) mod m = k.
Proof. intros. ring_cases. Qed.

Lemma slots_of_lookup hist m h l (k : nat) :
  0 < m -> 0 <= h < m -> Z.of_nat k < m -> slots_of hist m h l ->
  hist !! Z.to_nat ((h + Z.of_nat k) mod m) = Some (l !! k).
Proof.
  intros Hm Hh Hk [_ Hs].
  rewrite Hs by (apply Z.mod_pos_bound; lia).
  rewrite ring_back by lia. by rewrite Nat2Z.id.
Qed.

Lemma slots_truncate hist hist1 m h l (a : nat) :
  0 < m -> 0 <= h < m -> (a <= length l)%nat -> Z.of_nat (length l) < m ->
  slots_of hist m h l ->
  length hist1 = Z.to_nat m ->
  (forall j, 0 <= j < m ->
     hist1 !! Z.to_nat j
     = if (j - (h + Z.of_nat a) mod m) mod m <? Z.of_nat (length l) - Z.of_nat a
       then Some None else hist !! Z.to_nat j) ->
  slots_of hist1 m h (take a l).
Proof.
  intros Hm Hh Ha Hl [Hlen Hs] Hlen1 H1. split; [done|].
  intros j Hj. rewrite (H1 j Hj), (Hs j Hj), ring_shift by lia.
  assert (0 <= (j - h) mod m < m) as Hk by (apply Z.mod_pos_bound; lia).
  revert Hk. generalize ((j - h) mod m). intros k Hk.
  destruct (decide (k < Z.of_nat a)) as [Hlt|Hge].
  - rewrite lookup_take_lt by lia. ring_cases.
  - rewrite lookup_take_ge by lia.
    destruct (decide (k < Z.of_nat (length l))).
    + ring_cases.
    + rewrite (lookup_ge_None_2 l) by lia. ring_cases.
Qed.

Lemma slots_evict hist m h l :
  1 < m -> 0 <= h < m -> (1 <= length l)%nat -> Z.of_nat (length l) < m ->
  slots_of hist m h l ->
  slots_of (<[Z.to_nat h := None]> hist) m ((h + 1) mod m) (drop 1 l).
Proof.
  intros Hm Hh Hl1 Hl [Hlen Hs]. split; [by rewrite length_insert|].
  intros j Hj. rewrite lookup_drop.
  destruct (decide (j = h)) as [->|Hne].
  - rewrite list_lookup_insert_eq by lia.
    replace ((h - (h + 1) mod m) mod m) with (m - 1) by ring_cases.
    rewrite lookup_ge_None_2 by lia. done.
  - rewrite list_lookup_insert_ne by lia. rewrite (Hs j Hj).
    do 2 f_equal. ring_cases.
Qed.

Lemma slots_store hist m h l c :
  0 < m -> 0 <= h < m -> Z.of_nat (length l) < m ->
  slots_of hist m h l ->
  slots_of (<[Z.to_nat ((h + Z.of_nat (length l)) mod m) := Some c]> hist) m h
           (l ++ [c]).
Proof.
  intros Hm Hh Hl [Hlen Hs]. split; [by rewrite length_insert|].
  intros j Hj.
  destruct (decide (j = (h + Z.of_nat (length l)) mod m)) as [->|Hne].
  - rewrite list_lookup_insert_eq by lia.
    rewrite ring_back by lia. rewrite Nat2Z.id.
    by rewrite list_lookup_middle.
  - assert (0 <= (h + Z.of_nat (length l)) mod m < m)
      by (apply Z.mod_pos_bound; lia).
    rewrite list_lookup_insert_ne by lia. rewrite (Hs j Hj). f_equal.
    assert ((j - h) mod m <> Z.of_nat (length l)) as Hk by ring_cases.
    assert (0 <= (j - h) mod m) as Hk0 by (apply Z.mod_pos_bound; lia).
    revert Hk Hk0. generalize ((j - h) mod m). intros k Hk Hk0.
    destruct (decide (k < Z.of_nat (length l))).
    + by rewrite lookup_app_l by lia.
    + rewrite lookup_ge_None_2 by lia.
      rewrite lookup_ge_None_2; [done|]. rewrite length_app. cbn. lia.
Qed.

Lemma slots_update hist m h l (k : nat) c :
  0 < m -> 0 <= h < m -> (k < length l)%nat -> Z.of_nat (length l) < m ->
  slots_of hist m h l ->
  slots_of (<[Z.to_nat ((h + Z.of_nat k) mod m) := Some c]> hist) m h
           (<[k := c]> l).
Proof.
  intros Hm Hh Hk Hl [Hlen Hs]. split; [by rewrite length_insert|].
  intros j Hj.
  destruct (decide (j = (h + Z.of_nat k) mod m)) as [->|Hne].
  - rewrite list_lookup_insert_eq by lia.
    rewrite ring_back by lia. rewrite Nat2Z.id.
    by rewrite list_lookup_insert_eq.
  - assert (0 <= (h + Z.of_nat k) mod m < m) by (apply Z.mod_pos_bound; lia).
    rewrite list_lookup_insert_ne by lia. rewrite (Hs j Hj). f_equal.
    assert ((j - h) mod m <> Z.of_nat k) as Hk' by ring_cases.
    assert (0 <= (j - h) mod m) as Hk0 by (apply Z.mod_pos_bound; lia).
    rewrite list_lookup_insert_ne by lia. done.
Qed.

(** ** The operations on the list view *)

Lemma init_represents N :
  2 <= N <= INT_MAX ->
  exists us, UndoSystem.init N = Done us /\ represents us [] 0
             /\ maxHistorySize us = N /\ undoCursorHead us = 0
             /\ history us = replicate (Z.to_nat N) None.
Proof.
  intros HN. unfold UndoSystem.init, INT_MAX in *.
  destruct (Z.ltb_spec 1 N); [|lia].
  eexists. split; [reflexivity|]. cbn.
  rewrite u32_small by lia.
  repeat split; cbn; unfold INT_MAX; try lia.
  - by rewrite length_replicate.
  - intros j Hj. rewrite lookup_nil. apply lookup_replicate_2. lia.
Qed.

Lemma truncate_spec hist m h l (a : nat) :
  2 <= m <= INT_MAX -> 0 <= h < m ->
  Z.of_nat (length l) <= m - 1 -> (a <= length l)%nat ->
  slots_of hist m h l ->
  exists hist1,
    UndoSystem.removeAfterTail (Z.to_nat m) hist ((h + Z.of_nat a) mod m)
      ((h + Z.of_nat (length l)) mod m) m 0
    = Done (hist1, Z.of_nat (length l) - Z.of_nat a)
    /\ slots_of hist1 m h (take a l)
    /\ forall j, 0 <= j < m ->
         hist1 !! Z.to_nat j
         = if (j - (h + Z.of_nat a) mod m) mod m
              <? Z.of_nat (length l) - Z.of_nat a
           then Some None else hist !! Z.to_nat j.
Proof.
  intros Hm Hh Hcap Ha Hs. unfold INT_MAX in Hm.
  assert ((((h + Z.of_nat (length l)) mod m) - (h + Z.of_nat a) mod m) mod m
          = Z.of_nat (length l) - Z.of_nat a) as Hd by ring_cases.
  destruct (removeAfterTail_spec m ((h + Z.of_nat (length l)) mod m)
              ltac:(unfold INT_MAX; lia) ltac:(apply Z.mod_pos_bound; lia)
              (Z.to_nat m) hist ((h + Z.of_nat a) mod m) 0)
    as (hist1 & Hrun & Hlen1 & Hget1).
  { apply Z.mod_pos_bound; lia. }
  { apply Hs. }
  { rewrite Hd. lia. }
  { lia. }
  { rewrite Hd. lia. }
  { intros j Hj. rewrite Hd, ring_shift by lia.
    destruct Hs as [_ Hs]. unfold isLive. rewrite (Hs j Hj).
    assert (0 <= (j - h) mod m < m) as Hk by (apply Z.mod_pos_bound; lia).
    revert Hk. generalize ((j - h) mod m). intros k Hk Hlt.
    assert (a <= Z.to_nat k < length l)%nat as Hin by ring_cases.
    destruct (lookup_lt_is_Some_2 l (Z.to_nat k)) as [x ->]; [lia|done]. }
  rewrite Hd in Hrun, Hget1. rewrite Z.add_0_l in Hrun.
  exists hist1. split; [done|]. split; [|done].
  apply (slots_truncate hist); try done; try lia.
Qed.

Lemma push_spec us l a c am :
  represents us l a ->
  let full := bool_decide (Z.of_nat a = maxHistorySize us - 1) in
  let l2 := if full then drop 1 (take a l) else take a l in
  exists us',
    UndoSystem.pushAndExecuteCommand us c am = Done (us', (Command_execute c am).2)
    /\ represents us' (l2 ++ [(Command_execute c am).1]) (length l2 + 1)
    /\ maxHistorySize us' = maxHistorySize us
    /\ undoCursorHead us'
       = if full then (undoCursorHead us + 1) mod maxHistorySize us
         else undoCursorHead us.
Proof.
  intros (Hm & Hh & Hnum & Hcap & Ha & Htail & Hs) full l2.
  unfold INT_MAX in Hm.
  destruct us as [hist n t h m]; cbn in *. subst n t.
  unfold UndoSystem.pushAndExecuteCommand; cbn.
  rewrite (u32_small (h + Z.of_nat (length l))), (u32_small (h + 1)) by lia.
  destruct (truncate_spec hist m h l a) as (hist1 & Hrun & Hs1 & _);
    unfold INT_MAX; try done; try lia.
  rewrite Hrun. cbn.
  replace (Z.of_nat (length l) - (Z.of_nat (length l) - Z.of_nat a))
    with (Z.of_nat a) by lia.
  rewrite (u32_small (Z.of_nat a)) by lia.
  rewrite (u32_small ((h + Z.of_nat a) mod m + 1))
    by (pose proof (Z.mod_pos_bound (h + Z.of_nat a) m); lia).
  assert (length (take a l) = a) as Hl1 by (rewrite length_take; lia).
  assert (forall hist2 h2 (l2' : list Command),
    slots_of hist2 m h2 l2' -> 0 <= h2 < m -> Z.of_nat (length l2') < m - 1 ->
    (h + Z.of_nat a) mod m = (h2 + Z.of_nat (length l2')) mod m ->
    exists us',
      (hist3 ← storeCommand hist2 ((h + Z.of_nat a) mod m) c;
       c0 ← slot hist3 ((h + Z.of_nat a) mod m);
       let '(c', am') := Command_execute c0 am in
       Done ({| history := <[Z.to_nat ((h + Z.of_nat a) mod m) := Some c']> hist3;
                numCommands := u32 (Z.of_nat (length l2') + 1);
                undoCursorTail := ((h + Z.of_nat a) mod m + 1) mod m;
                undoCursorHead := h2;
                maxHistorySize := m |}, am'))
      = Done (us', (Command_execute c am).2)
      /\ represents us' (l2' ++ [(Command_execute c am).1]) (length l2' + 1)
      /\ maxHistorySize us' = m /\ undoCursorHead us' = h2) as Hstore.
  { intros hist2 h2 l2' Hs2 Hh2 Hlen2 Hpos.
    assert (0 <= (h + Z.of_nat a) mod m < m) as Ht by (apply Z.mod_pos_bound; lia).
    unfold storeCommand.
    rewrite decide_True by (destruct Hs2 as [-> _]; lia). cbn.
    unfold slot. rewrite list_lookup_insert_eq by (destruct Hs2 as [-> _]; lia).
    cbn. destruct (Command_execute c am) as [c' am'] eqn:Hex. cbn.
    eexists. split; [reflexivity|]. cbn.
    rewrite list_insert_insert_eq, u32_small by lia.
    split; [|done]. unfold represents; cbn. rewrite length_app; cbn.
    repeat split; unfold INT_MAX; try lia.
    - rewrite Hpos. ring_cases.
    - rewrite length_insert. apply Hs2.
    - rewrite Hpos. apply slots_store; try lia. done. }
  subst full l2.
  destruct (Z.eqb_spec (((h + Z.of_nat a) mod m + 1) mod m) h) as [Hfull|Hroom].
  - assert (Z.of_nat a = m - 1) as Ham by ring_cases.
    rewrite bool_decide_eq_true_2 by done.
    destruct (lookup_lt_is_Some_2 (take a l) 0) as [c0 Hc0]; [lia|].
    unfold destroyCommand.
    rewrite (lookup_slot hist1 h c0).
    2:{ destruct Hs1 as [_ Hs1]. rewrite (Hs1 h) by lia.
        replace ((h - h) mod m) with 0 by ring_cases.
        change (Z.to_nat 0) with 0%nat. by rewrite Hc0. }
    cbn. rewrite (u32_small (Z.of_nat a - 1)) by lia.
    pose proof (slots_evict hist1 m h (take a l) ltac:(lia) ltac:(lia)
                  ltac:(lia) ltac:(lia) Hs1) as Hs2.
    destruct (Hstore _ _ _ Hs2) as (us' & Hrun' & Hrep & Hmax & Hhead).
    + apply Z.mod_pos_bound; lia.
    + rewrite length_drop. lia.
    + rewrite length_drop. ring_cases.
    + exists us'. rewrite length_drop, Hl1 in Hrun'.
      replace (Z.of_nat (a - 1)) with (Z.of_nat a - 1) in Hrun' by lia.
      rewrite Hrun'. done.
  - assert (Z.of_nat a <> m - 1) as Ham by ring_cases.
    rewrite bool_decide_eq_false_2 by done. cbn.
    destruct (Hstore _ _ _ Hs1) as (us' & Hrun' & Hrep & Hmax & Hhead);
      [lia|lia|by rewrite Hl1|].
    exists us'. rewrite Hl1 in Hrun'. rewrite Hrun'. done.
Qed.

Lemma undo_spec us l a am :
  represents us l a ->
  match a with
  | O => UndoSystem.undo us am = Done (us, am)
  | S a' =>
      exists c us',
        l !! a' = Some c
        /\ UndoSystem.undo us am = Done (us', Command_undo c am)
        /\ represents us' l a'
        /\ history us' = history us
        /\ undoCursorHead us' = undoCursorHead us
        /\ maxHistorySize us' = maxHistorySize us
  end.
Proof.
  intros (Hm & Hh & Hnum & Hcap & Ha & Htail & Hs). unfold INT_MAX in Hm.
  destruct us as [hist n t h m]; cbn in *. subst n t.
  unfold UndoSystem.undo; cbn.
  destruct a as [|a'].
  - replace ((h + Z.of_nat 0) mod m) with h by ring_cases.
    by rewrite Z.eqb_refl.
  - destruct (Z.eqb_spec h ((h + Z.of_nat (S a')) mod m)) as [Heq|_];
      [exfalso; revert Heq; ring_cases|].
    destruct (lookup_lt_is_Some_2 l a') as [c Hc]; [lia|].
    assert ((if (h + Z.of_nat (S a')) mod m =? 0 then u32 (m - 1)
             else u32 ((h + Z.of_nat (S a')) mod m - 1))
            = (h + Z.of_nat a') mod m) as ->.
    { destruct (Z.eqb_spec ((h + Z.of_nat (S a')) mod m) 0) as [H0|H0].
      - rewrite u32_small by lia. revert H0. ring_cases.
      - pose proof (Z.mod_pos_bound (h + Z.of_nat (S a')) m).
        rewrite u32_small by lia. revert H0. ring_cases. }
    rewrite (lookup_slot hist _ c).
    2:{ rewrite (slots_of_lookup hist m h l a') by (done || lia). by rewrite Hc. }
    cbn. exists c. eexists. split; [done|]. split; [reflexivity|].
    unfold represents; cbn.
    repeat split; unfold INT_MAX; try lia; apply Hs.
Qed.

Lemma redo_spec us l a am :
  represents us l a ->
  if decide (a = length l) then UndoSystem.redo us am = Done (us, am)
  else
    exists c us',
      l !! a = Some c
      /\ UndoSystem.redo us am = Done (us', (Command_execute c am).2)
      /\ represents us' (<[a := (Command_execute c am).1]> l) (S a)
      /\ undoCursorHead us' = undoCursorHead us
      /\ maxHistorySize us' = maxHistorySize us.
Proof.
  intros (Hm & Hh & Hnum & Hcap & Ha & Htail & Hs). unfold INT_MAX in Hm.
  destruct us as [hist n t h m]; cbn in *. subst n t.
  unfold UndoSystem.redo; cbn.
  rewrite (u32_small (h + Z.of_nat (length l))) by lia.
  destruct (decide (a = length l)) as [->|Hne].
  - by rewrite Z.eqb_refl.
  - destruct (Z.eqb_spec ((h + Z.of_nat (length l)) mod m)
                         ((h + Z.of_nat a) mod m)) as [Heq|_];
      [exfalso; revert Heq; ring_cases|].
    destruct (lookup_lt_is_Some_2 l a) as [c Hc]; [lia|].
    rewrite (lookup_slot hist _ c).
    2:{ rewrite (slots_of_lookup hist m h l a) by (done || lia). by rewrite Hc. }
    cbn. destruct (Command_execute c am) as [c' am'] eqn:Hex. cbn.
    exists c. eexists. rewrite ?Hex. split; [done|]. split; [reflexivity|]. cbn.
    pose proof (Z.mod_pos_bound (h + Z.of_nat a) m).
    rewrite u32_small by lia. unfold represents; cbn. rewrite length_insert.
    repeat split; unfold INT_MAX; try lia.
    + ring_cases.
    + rewrite length_insert. apply Hs.
    + apply slots_update; try lia. done.
Qed.

(** ** Well-formed logs and the list view *)

Lemma omap_seq_lookup {A} (f : nat -> option A) (l : list A) :
  (forall k, (k < length l)%nat -> f k = l !! k) ->
  omap f (seq 0 (length l)) = l.
Proof.
  induction l as [|x l IH] using rev_ind; intros Hf; [done|].
  rewrite length_app in *. cbn [length] in *.
  rewrite Nat.add_1_r, seq_S, omap_app. cbn.
  rewrite IH.
  - rewrite Hf by lia. by rewrite list_lookup_middle.
  - intros k Hk. rewrite Hf by lia. by rewrite lookup_app_l by lia.
Qed.

Lemma list_of_fun {A} (f : nat -> option A) (n : nat) :
  (forall k, (k < n)%nat -> is_Some (f k)) ->
  exists l, length l = n /\ forall k, (k < n)%nat -> l !! k = f k.
Proof.
  induction n as [|n IH]; intros Hf.
  - exists []. split; [done|]. intros; lia.
  - destruct IH as (l & Hlen & Hl); [intros; apply Hf; lia|].
    destruct (Hf n) as [x Hx]; [lia|].
    exists (l ++ [x]). split; [rewrite length_app; cbn; lia|].
    intros k Hk. destruct (decide (k = n)) as [->|].
    + rewrite Hx. by apply list_lookup_middle.
    + rewrite lookup_app_l by lia. apply Hl. lia.
Qed.

Lemma represents_retained us l a : represents us l a -> retained us = l.
Proof.
  intros (Hm & Hh & Hnum & Hcap & Ha & Htail & Hs). unfold retained.
  rewrite Hnum, Nat2Z.id. apply omap_seq_lookup.
  intros k Hk. rewrite (slots_of_lookup _ _ _ l) by (done || lia). done.
Qed.

Lemma represents_applied us l a : represents us l a -> applied us = Z.of_nat a.
Proof.
  intros (Hm & Hh & Hnum & Hcap & Ha & Htail & Hs). unfold applied.
  rewrite Htail. apply ring_back; lia.
Qed.

Lemma wfb_slots us :
  forallb (fun j => Bool.eqb (isLive (history us) j)
                      ((j - undoCursorHead us) mod maxHistorySize us
                       <? numCommands us))
          (seqZ 0 (maxHistorySize us)) = true
  <-> forall j, 0 <= j < maxHistorySize us ->
        isLive (history us) j
        = ((j - undoCursorHead us) mod maxHistorySize us <? numCommands us).
Proof.
  rewrite forallb_forall. split.
  - intros H j Hj. apply Bool.eqb_prop, H.
    apply list_elem_of_In, elem_of_seqZ. lia.
  - intros H j Hj. apply list_elem_of_In, elem_of_seqZ in Hj.
    rewrite H by lia. apply Bool.eqb_reflx.
Qed.

Lemma wf_represents us :
  wf us -> represents us (retained us) (Z.to_nat (applied us)).
Proof.
  unfold wf, wfb. rewrite !andb_true_iff, wfb_slots.
  intros ((((((((((Hm1 & Hm2) & Hlen) & Hh1) & Hh2) & Ht1) & Ht2) & Hn1) & Hn2)
            & Happ) & Hlive).
  apply Z.leb_le in Hm1, Hm2, Hh1, Ht1, Hn1, Hn2, Happ.
  apply Z.ltb_lt in Hh2, Ht2. apply Nat.eqb_eq in Hlen.
  destruct us as [hist n t h m]; cbn in *. unfold applied in *; cbn in *.
  destruct (list_of_fun
              (fun k => mjoin (hist !! Z.to_nat ((h + Z.of_nat k) mod m)))
              (Z.to_nat n)) as (l & Hl & Hget).
  { intros k Hk.
    assert (0 <= (h + Z.of_nat k) mod m < m) as Hj by (apply Z.mod_pos_bound; lia).
    specialize (Hlive _ Hj). rewrite ring_back in Hlive by lia.
    destruct (Z.ltb_spec (Z.of_nat k) n); [|lia].
    unfold isLive in Hlive.
    destruct (hist !! Z.to_nat ((h + Z.of_nat k) mod m)) as [[c|]|]; by eauto. }
  assert (represents {| history := hist; numCommands := n; undoCursorTail := t;
                        undoCursorHead := h; maxHistorySize := m |}
                     l (Z.to_nat ((t - h) mod m))) as Hrep.
  { assert (0 <= (t - h) mod m < m) by (apply Z.mod_pos_bound; lia).
    assert (t = (h + (t - h) mod m) mod m) as Ht by ring_cases.
    unfold represents; cbn. rewrite Z2Nat.id by lia.
    do 5 (split; [lia|]). split; [done|]. split; [done|].
    intros j Hj.
      assert (0 <= (j - h) mod m < m) as Hk by (apply Z.mod_pos_bound; lia).
      specialize (Hlive j Hj). unfold isLive in Hlive.
      destruct (lookup_lt_is_Some_2 hist (Z.to_nat j)) as [x Hx]; [lia|].
      rewrite Hx in *. f_equal.
      destruct (Z.ltb_spec ((j - h) mod m) n).
      + rewrite Hget by lia. rewrite Z2Nat.id by lia.
        replace ((h + (j - h) mod m) mod m) with j by ring_cases.
        by rewrite Hx.
      + rewrite lookup_ge_None_2 by lia. by destruct x. }
  by rewrite (represents_retained _ _ _ Hrep).
Qed.

Lemma represents_wf us l a : represents us l a -> wf us.
Proof.
  intros Hrep. pose proof (represents_applied _ _ _ Hrep) as Happ.
  destruct Hrep as (Hm & Hh & Hnum & Hcap & Ha & Htail & [Hlen Hs]).
  unfold wf, wfb. rewrite !andb_true_iff, wfb_slots.
  assert (0 <= undoCursorTail us < maxHistorySize us)
    by (rewrite Htail; apply Z.mod_pos_bound; lia).
  repeat split; try (apply Z.leb_le; lia); try (apply Z.ltb_lt; lia).
  - by apply Nat.eqb_eq.
  - intros j Hj. unfold isLive. rewrite (Hs j Hj), Hnum.
    assert (0 <= (j - undoCursorHead us) mod maxHistorySize us)
      by (apply Z.mod_pos_bound; lia).
    destruct (Z.ltb_spec ((j - undoCursorHead us) mod maxHistorySize us)
                         (Z.of_nat (length l))).
    + destruct (lookup_lt_is_Some_2 l
                  (Z.to_nat ((j - undoCursorHead us) mod maxHistorySize us)))
        as [c ->]; [lia|done].
    + by rewrite lookup_ge_None_2 by lia.
Qed.

Lemma represents_inj us us' l a :
  represents us l a -> represents us' l a ->
  undoCursorHead us' = undoCursorHead us ->
  maxHistorySize us' = maxHistorySize us ->
  us' = us.
Proof.
  intros (Hm & Hh & Hnum & Hcap & Ha & Htail & [Hlen Hs])
         (Hm' & Hh' & Hnum' & Hcap' & Ha' & Htail' & [Hlen' Hs']) Hhead Hmax.
  destruct us as [hist n t h m], us' as [hist' n' t' h' m']; cbn in *.
  subst h' m' n n' t t'. f_equal.
  apply list_eq. intros i.
  destruct (decide (i < Z.to_nat m)%nat) as [Hi|Hi].
  - specialize (Hs (Z.of_nat i) ltac:(lia)).
    specialize (Hs' (Z.of_nat i) ltac:(lia)).
    rewrite Nat2Z.id in Hs, Hs'. by rewrite Hs, Hs'.
  - by rewrite !lookup_ge_None_2 by lia.
Qed.

(** Every operation keeps the list view, whatever the store holds, and the
    cursors it leaves do not depend on the store. *)
Lemma step_represents us l a o :
  represents us l a ->
  exists cur, forall am,
    exists us' am' l' a',
      step o (us, am) = Done (us', am')
      /\ represents us' l' a'
      /\ maxHistorySize us' = maxHistorySize us
      /\ cursors us' = cur.
Proof.
  intros Hrep. pose proof Hrep as (Hm & Hh & Hnum & Hcap & Ha & Htail & Hs).
  destruct o as [c| |]; cbn.
  - set (full := bool_decide (Z.of_nat a = maxHistorySize us - 1)).
    set (l2 := if full then drop 1 (take a l) else take a l).
    set (h2 := if full then (undoCursorHead us + 1) mod maxHistorySize us
               else undoCursorHead us).
    exists (h2, (h2 + Z.of_nat (length l2 + 1)) mod maxHistorySize us,
            Z.of_nat (length l2 + 1)).
    intros am.
    destruct (push_spec us l a c am Hrep) as (us' & Hrun & Hrep' & Hmax & Hhead).
    fold full in Hhead, Hrep'. fold l2 in Hrep'. fold h2 in Hhead.
    exists us', (Command_execute c am).2, (l2 ++ [(Command_execute c am).1]),
           (length l2 + 1)%nat.
    do 3 (split; [done|]).
    destruct Hrep' as (_ & _ & Hnum' & _ & _ & Htail' & _).
    unfold cursors. rewrite Htail', Hnum', Hhead, Hmax, length_app. done.
  - destruct a as [|a'].
    + exists (cursors us). intros am. exists us, am, l, 0%nat.
      by rewrite (undo_spec us l 0 am Hrep).
    + exists (undoCursorHead us,
              (undoCursorHead us + Z.of_nat a') mod maxHistorySize us,
              numCommands us).
      intros am.
      destruct (undo_spec us l (S a') am Hrep)
        as (c & us' & Hc & Hrun & Hrep' & Hhist & Hhead & Hmax).
      exists us', (Command_undo c am), l, a'. do 3 (split; [done|]).
      destruct Hrep' as (_ & _ & Hnum' & _ & _ & Htail' & _).
      unfold cursors. by rewrite Htail', Hnum', Hhead, Hmax, Hnum.
  - pose proof (redo_spec us l a) as Hredo.
    destruct (decide (a = length l)) as [Heq|Hne].
    + exists (cursors us). intros am. exists us, am, l, a.
      by rewrite (Hredo am Hrep).
    + exists (undoCursorHead us,
              (undoCursorHead us + Z.of_nat (S a)) mod maxHistorySize us,
              numCommands us).
      intros am.
      destruct (Hredo am Hrep) as (c & us' & Hc & Hrun & Hrep' & Hhead & Hmax).
      exists us', (Command_execute c am).2,
             (<[a := (Command_execute c am).1]> l), (S a).
      do 3 (split; [done|]).
      destruct Hrep' as (_ & _ & Hnum' & _ & _ & Htail' & _).
      unfold cursors. rewrite Htail', Hnum', Hhead, Hmax, Hnum, length_insert.
      done.
Qed.

Lemma run_represents ops :
  forall us l a am,
    represents us l a ->
    exists us' am' l' a',
      run ops (us, am) = Done (us', am')
      /\ represents us' l' a'
      /\ maxHistorySize us' = maxHistorySize us.
Proof.
  induction ops as [|o ops IH]; intros us l a am Hrep.
  - exists us, am, l, a. done.
  - destruct (step_represents us l a o Hrep) as (cur & Hstep).
    destruct (Hstep am) as (us1 & am1 & l1 & a1 & Hrun1 & Hrep1 & Hmax1 & _).
    destruct (IH us1 l1 a1 am1 Hrep1) as (us' & am' & l' & a' & Hrun & Hrep' & Hmax).
    exists us', am', l', a'. cbn [run]. rewrite Hrun1. cbn.
    do 2 (split; [done|]). congruence.
Qed.

(** ** Initialisation *)

(** C8: [init] with a history size of at most 1 stops at the failed assertion,
    a fault no operation recovers from; with a size of at least 2 (an [int])
    it returns a log of that many slots, none of them holding a command, with
    head, tail and count all 0. *)
Theorem init_capacity (maxHistory : Z) :
  (maxHistory <= 1 -> UndoSystem.init maxHistory = Fault AssertionFailure)
  /\ (2 <= maxHistory <= INT_MAX ->
      exists us,
        UndoSystem.init maxHistory = Done us
        /\ length (history us) = Z.to_nat maxHistory
        /\ Forall (fun s => s = None) (history us)
        /\ maxHistorySize us = maxHistory
        /\ undoCursorHead us = 0
        /\ undoCursorTail us = 0
        /\ numCommands us = 0).
Proof.
  split.
  - intros Hle. unfold UndoSystem.init.
    destruct (Z.ltb_spec 1 maxHistory); [lia|done].
  - intros Hge. destruct (init_represents maxHistory Hge)
      as (us & Hinit & Hrep & Hmax & Hhead & Hhist).
    exists us. destruct Hrep as (_ & _ & Hnum & _ & _ & Htail & _).
    rewrite Hhist, length_replicate. repeat split; try done.
    + apply Forall_replicate. done.
    + rewrite Htail, Hhead. apply Z.mod_0_l. lia.
Qed.

Lemma init_capacity_witness :
  UndoSystem.init 1 = Fault AssertionFailure
  /\ exists us,
       UndoSystem.init 2 = Done us
       /\ length (history us) = Z.to_nat 2
       /\ Forall (fun s => s = None) (history us)
       /\ maxHistorySize us = 2
       /\ undoCursorHead us = 0
       /\ undoCursorTail us = 0
       /\ numCommands us = 0.
Proof.
  split.
  - apply (proj1 (init_capacity 1)). lia.
  - apply (proj2 (init_capacity 2)). unfold INT_MAX. lia.
Defined.

(** ** The entry points without a body *)

(** C10: [addNewObjToScene] and [removeObjFromScene] return the log and the
    store as they received them: no command is recorded, the store is not
    called, and the cursors, the count and every slot are unchanged. *)
Theorem scene_entry_points_do_nothing (us : UndoSystemData)
    (am : AnimationManagerData) (obj : AnimObject) (objId : AnimObjId) :
  UndoSystem.addNewObjToScene us obj am = Done (us, am)
  /\ UndoSystem.removeObjFromScene us objId am = Done (us, am).
Proof. split; reflexivity. Qed.

(** ** Nothing to undo, nothing to redo *)

Lemma run_noop o us am (k : nat) :
  step o (us, am) = Done (us, am) -> run (replicate k o) (us, am) = Done (us, am).
Proof.
  intros Hstep. induction k as [|k IH]; [done|].
  cbn [replicate run]. rewrite Hstep. cbn. exact IH.
Qed.

(** C7: [undo] returns the log and the store untouched when head and tail
    coincide, and [redo] does when the tail is at [(head + count) mod
    capacity]; this is the case of both on a log fresh from [init]. Any
    number of repetitions leaves them untouched as well. *)
Theorem undo_redo_nothing_to_do (us : UndoSystemData)
    (am : AnimationManagerData) (k : nat) :
  (undoCursorHead us = undoCursorTail us ->
     UndoSystem.undo us am = Done (us, am)
     /\ run (replicate k OpUndo) (us, am) = Done (us, am))
  /\ (0 <= undoCursorHead us + numCommands us < 2 ^ 32 ->
      (undoCursorHead us + numCommands us) mod maxHistorySize us
      = undoCursorTail us ->
        UndoSystem.redo us am = Done (us, am)
        /\ run (replicate k OpRedo) (us, am) = Done (us, am))
  /\ (forall N, UndoSystem.init N = Done us ->
        UndoSystem.undo us am = Done (us, am)
        /\ UndoSystem.redo us am = Done (us, am)).
Proof.
  assert (undoCursorHead us = undoCursorTail us ->
          UndoSystem.undo us am = Done (us, am)) as Hundo.
  { intros Heq. unfold UndoSystem.undo. by rewrite Heq, Z.eqb_refl. }
  assert (0 <= undoCursorHead us + numCommands us < 2 ^ 32 ->
          (undoCursorHead us + numCommands us) mod maxHistorySize us
          = undoCursorTail us ->
          UndoSystem.redo us am = Done (us, am)) as Hredo.
  { intros Hrange Heq. unfold UndoSystem.redo.
    by rewrite u32_small, Heq, Z.eqb_refl. }
  split; [|split].
  - intros Heq. split; [auto|]. apply run_noop. cbn. auto.
  - intros Hrange Heq. split; [auto|]. apply run_noop. cbn. auto.
  - intros N Hinit. unfold UndoSystem.init in Hinit.
    destruct (1 <? N); [|discriminate]. injection Hinit as <-.
    split; [apply Hundo; reflexivity|].
    apply Hredo; cbn; [lia|]. apply Zmod_0_l.
Qed.

Lemma undo_redo_nothing_to_do_witness :
  (UndoSystem.undo (freshLog 3) sampleStore = Done (freshLog 3, sampleStore)
   /\ run (replicate 2 OpUndo) (freshLog 3, sampleStore)
      = Done (freshLog 3, sampleStore))
  /\ (UndoSystem.redo (freshLog 3) sampleStore = Done (freshLog 3, sampleStore)
      /\ run (replicate 2 OpRedo) (freshLog 3, sampleStore)
         = Done (freshLog 3, sampleStore))
  /\ (UndoSystem.undo (freshLog 3) sampleStore = Done (freshLog 3, sampleStore)
      /\ UndoSystem.redo (freshLog 3) sampleStore
         = Done (freshLog 3, sampleStore)).
Proof.
  destruct (undo_redo_nothing_to_do (freshLog 3) sampleStore 2) as (H1 & H2 & H3).
  split; [|split].
  - apply H1. reflexivity.
  - apply H2; [cbn; lia|reflexivity].
  - apply (H3 3). reflexivity.
Defined.

(** ** One slot always stays empty *)

(** C9: after [init] and any sequence of recordings, undos and redos, every
    operation has returned, the log is well formed, and it retains at most
    [capacity - 1] commands: some slot of the ring holds no command. *)
Theorem retained_below_capacity (N : Z) (us0 : UndoSystemData) (ops : list Op)
    (am : AnimationManagerData) :
  N <= INT_MAX ->
  UndoSystem.init N = Done us0 ->
  exists us am',
    run ops (us0, am) = Done (us, am')
    /\ wf us
    /\ maxHistorySize us = N
    /\ 0 <= numCommands us <= N - 1
    /\ length (retained us) = Z.to_nat (numCommands us)
    /\ exists j, 0 <= j < N /\ history us !! Z.to_nat j = Some None.
Proof.
  intros HN Hinit.
  assert (2 <= N) as HN2.
  { unfold UndoSystem.init in Hinit. destruct (Z.ltb_spec 1 N); [lia|discriminate]. }
  destruct (init_represents N ltac:(lia)) as (us0' & Hinit' & Hrep0 & Hmax0 & _).
  rewrite Hinit in Hinit'. injection Hinit' as <-.
  destruct (run_represents ops us0 [] 0%nat am Hrep0)
    as (us & am' & l & a & Hrun & Hrep & Hmax).
  exists us, am'. split; [done|]. split; [by eapply represents_wf|].
  split; [congruence|].
  rewrite (represents_retained _ _ _ Hrep).
  destruct Hrep as (Hm & Hh & Hnum & Hcap & Ha & Htail & Hs).
  rewrite Hmax, Hmax0 in *.
  split; [lia|]. split; [lia|].
  exists ((undoCursorHead us + Z.of_nat (length l)) mod N).
  split; [apply Z.mod_pos_bound; lia|].
  rewrite (slots_of_lookup _ _ _ l) by (done || lia).
  by rewrite lookup_ge_None_2.
Qed.

Lemma retained_below_capacity_witness :
  exists us am',
    run [OpRecord (ModifyU8Vec4Command 1 red blue FillColor);
         OpRecord (ApplyU8Vec4ToChildrenCommand 1 FillColor ∅);
         OpUndo; OpRedo;
         OpRecord (ModifyU8Vec4Command 2 blue green StrokeColor)]
        (freshLog 2, sampleStore) = Done (us, am')
    /\ wf us
    /\ maxHistorySize us = 2
    /\ 0 <= numCommands us <= 2 - 1
    /\ length (retained us) = Z.to_nat (numCommands us)
    /\ exists j, 0 <= j < 2 /\ history us !! Z.to_nat j = Some None.
Proof.
  apply (retained_below_capacity 2 (freshLog 2)).
  - unfold INT_MAX. lia.
  - reflexivity.
Defined.

(** ** Recording past the capacity *)

Lemma length_executeAll cs : forall am, length (executeAll cs am).1 = length cs.
Proof.
  induction cs as [|c cs IH]; intros am; [done|]. cbn.
  destruct (Command_execute c am) as [c' am1].
  specialize (IH am1). destruct (executeAll cs am1) as [r am2]. cbn in *. lia.
Qed.

Lemma keepLast_all {A} (n : nat) (l : list A) :
  (length l <= n)%nat -> keepLast n l = l.
Proof. intros H. unfold keepLast. by replace (length l - n)%nat with 0%nat by lia. Qed.

Lemma keepLast_trim {A} (n : nat) (l r : list A) (x : A) :
  (1 <= n)%nat -> (length l <= n)%nat ->
  keepLast n (l ++ x :: r)
  = keepLast n (((if decide (length l = n) then drop 1 l else l) ++ [x]) ++ r).
Proof.
  intros Hn Hl. destruct (decide (length l = n)) as [Heq|Hne].
  - destruct l as [|y l']; [cbn in *; lia|]. unfold keepLast. cbn [drop].
    rewrite !drop_0.
    rewrite <- !app_assoc. cbn [app length]. rewrite !length_app. cbn [length] in *.
    replace (S (length l' + S (length r)) - n)%nat with (S (length r)) by lia.
    replace (length l' + S (length r) - n)%nat with (length r) by lia.
    done.
  - by rewrite <- app_assoc.
Qed.

Lemma record_all_spec cs :
  forall us l am,
    represents us l (length l) ->
    exists us',
      run (OpRecord <$> cs) (us, am) = Done (us', (executeAll cs am).2)
      /\ represents us'
           (keepLast (Z.to_nat (maxHistorySize us - 1)) (l ++ (executeAll cs am).1))
           (length (keepLast (Z.to_nat (maxHistorySize us - 1))
                             (l ++ (executeAll cs am).1)))
      /\ maxHistorySize us' = maxHistorySize us.
Proof.
  induction cs as [|c cs IH]; intros us l am Hrep.
  - exists us. cbn. rewrite app_nil_r.
    rewrite keepLast_all by (destruct Hrep as (_ & _ & _ & Hcap & _); lia).
    done.
  - pose proof Hrep as (Hm & Hh & Hnum & Hcap & Ha & Htail & Hs).
    destruct (push_spec us l (length l) c am Hrep)
      as (us1 & Hrun1 & Hrep1 & Hmax1 & _).
    cbn [fmap list_fmap run step fst snd]. rewrite Hrun1.
    cbn [executeAll]. destruct (Command_execute c am) as [c' am1]. cbn [fst snd] in *.
    destruct (executeAll cs am1) as [r am2] eqn:Hall. cbn [fst snd].
    rewrite firstn_all in Hrep1.
    rewrite (keepLast_trim (Z.to_nat (maxHistorySize us - 1)) l) by lia.
    assert ((if bool_decide (Z.of_nat (length l) = maxHistorySize us - 1)
             then drop 1 l else l)
            = (if decide (length l = Z.to_nat (maxHistorySize us - 1))
               then drop 1 l else l)) as Hsame.
    { destruct (decide (length l = Z.to_nat (maxHistorySize us - 1))).
      - by rewrite bool_decide_eq_true_2 by lia.
      - by rewrite bool_decide_eq_false_2 by lia. }
    rewrite Hsame in Hrep1. clear Hsame.
    set (l2 := if decide (length l = Z.to_nat (maxHistorySize us - 1))
               then drop 1 l else l) in *.
    replace (length l2 + 1)%nat with (length (l2 ++ [c'])) in Hrep1
      by (rewrite length_app; cbn; lia).
    destruct (IH us1 (l2 ++ [c']) am1 Hrep1) as (us' & Hrun & Hrep' & Hmax).
    exists us'. cbn. rewrite Hall in *. cbn [fst snd] in *.
    rewrite Hmax1 in *. done.
Qed.

Lemma undo_iter (k : nat) :
  forall us l a am,
    represents us l a ->
    exists us',
      run (replicate k OpUndo) (us, am)
      = Done (us', undoAll (rev (drop (a - k) (take a l))) am)
      /\ represents us' l (a - k)
      /\ maxHistorySize us' = maxHistorySize us.
Proof.
  induction k as [|k IH]; intros us l a am Hrep.
  - exists us. cbn. rewrite Nat.sub_0_r.
    rewrite drop_ge by (rewrite length_take; lia). done.
  - cbn [replicate run step fst snd].
    pose proof (undo_spec us l a am Hrep) as Hundo.
    destruct a as [|a'].
    + rewrite Hundo. cbn. destruct (IH us l 0%nat am Hrep) as (us' & Hrun & Hrep' & Hmax).
      exists us'. done.
    + destruct Hundo as (c & us1 & Hc & Hrun1 & Hrep1 & _ & _ & Hmax1).
      rewrite Hrun1. cbn.
      destruct (IH us1 l a' (Command_undo c am) Hrep1) as (us' & Hrun & Hrep' & Hmax).
      exists us'. rewrite Hrun. split; [|split; [done|congruence]].
      pose proof (lookup_lt_Some _ _ _ Hc).
      rewrite (take_S_r l a' c Hc).
      replace (S a' - S k)%nat with (a' - k)%nat by lia.
      rewrite drop_app_le by (rewrite length_take; lia).
      rewrite rev_app_distr. done.
Qed.

(** C1, as the specification states it, fails: a log of capacity 3 that
    records 4 commands retains the last 2 of them, not the last 3. *)
Lemma fill_past_capacity_counterexample :
  exists us am',
    UndoSystem.init 3 = Done (freshLog 3)
    /\ run (OpRecord <$> [sampleCommand 1; sampleCommand 2; sampleCommand 3;
                          sampleCommand 4])
           (freshLog 3, sampleStore) = Done (us, am')
    /\ retained us = [sampleCommand 3; sampleCommand 4]
    /\ retained us <> [sampleCommand 2; sampleCommand 3; sampleCommand 4]
    /\ numCommands us <> 3.
Proof.
  eexists. eexists. split; [reflexivity|]. split; [vm_compute; reflexivity|].
  split; [reflexivity|]. split; [|cbn; lia].
  vm_compute. discriminate.
Qed.

(** C1, amended: a log of capacity [N] that records [N + 1] commands, with
    no undo in between, retains exactly the [N - 1] most recent ones, as
    their [execute] left them; the first two recorded commands are evicted.
    However many times [undo] is then called, the commands it undoes are
    retained ones, newest first; the log keeps retaining the same
    commands. *)
Theorem fill_past_capacity (N : Z) (cs : list Command)
    (am : AnimationManagerData) :
  2 <= N <= INT_MAX ->
  Z.of_nat (length cs) = N + 1 ->
  exists us0 us am',
    UndoSystem.init N = Done us0
    /\ run (OpRecord <$> cs) (us0, am) = Done (us, am')
    /\ am' = (executeAll cs am).2
    /\ numCommands us = N - 1
    /\ applied us = N - 1
    /\ retained us = drop 2 (executeAll cs am).1
    /\ retained us = keepLast (Z.to_nat (N - 1)) (executeAll cs am).1
    /\ forall k : nat,
         exists usk,
           run (replicate k OpUndo) (us, am')
           = Done (usk, undoAll (rev (drop (Z.to_nat (N - 1) - k) (retained us)))
                                am')
           /\ retained usk = retained us.
Proof.
  intros HN Hlen.
  destruct (init_represents N HN) as (us0 & Hinit & Hrep0 & Hmax0 & _).
  destruct (record_all_spec cs us0 [] am Hrep0) as (us & Hrun & Hrep & Hmax).
  rewrite app_nil_l, Hmax0 in Hrep.
  pose proof (length_executeAll cs am) as Hlen'.
  assert (keepLast (Z.to_nat (N - 1)) (executeAll cs am).1
          = drop 2 (executeAll cs am).1) as Hkeep.
  { unfold keepLast. f_equal. lia. }
  assert (length (keepLast (Z.to_nat (N - 1)) (executeAll cs am).1)
          = Z.to_nat (N - 1)) as HlenL.
  { rewrite Hkeep, length_drop. lia. }
  pose proof (represents_retained _ _ _ Hrep) as Hret.
  pose proof (represents_applied _ _ _ Hrep) as Happ.
  exists us0, us, (executeAll cs am).2.
  do 3 (split; [done|]).
  split; [destruct Hrep as (_ & _ & -> & _); lia|].
  split; [lia|]. split; [congruence|]. split; [done|].
  intros k.
  destruct (undo_iter k us _ _ (executeAll cs am).2 Hrep) as (usk & Hrunk & Hrepk & _).
  exists usk. rewrite firstn_all, HlenL in Hrunk. rewrite Hret.
  split; [done|]. by apply represents_retained in Hrepk.
Qed.

Lemma fill_past_capacity_witness :
  exists us0 us am',
    UndoSystem.init 3 = Done us0
    /\ run (OpRecord <$> [sampleCommand 1; sampleCommand 2; sampleCommand 3;
                          ApplyU8Vec4ToChildrenCommand 1 FillColor ∅])
           (us0, sampleStore) = Done (us, am')
    /\ am' = (executeAll [sampleCommand 1; sampleCommand 2; sampleCommand 3;
                          ApplyU8Vec4ToChildrenCommand 1 FillColor ∅]
                         sampleStore).2
    /\ numCommands us = 3 - 1
    /\ applied us = 3 - 1
    /\ retained us
       = drop 2 (executeAll [sampleCommand 1; sampleCommand 2; sampleCommand 3;
                             ApplyU8Vec4ToChildrenCommand 1 FillColor ∅]
                            sampleStore).1
    /\ retained us
       = keepLast (Z.to_nat (3 - 1))
           (executeAll [sampleCommand 1; sampleCommand 2; sampleCommand 3;
                        ApplyU8Vec4ToChildrenCommand 1 FillColor ∅]
                       sampleStore).1
    /\ forall k : nat,
         exists usk,
           run (replicate k OpUndo) (us, am')
           = Done (usk, undoAll (rev (drop (Z.to_nat (3 - 1) - k) (retained us)))
                                am')
           /\ retained usk = retained us.
Proof.
  apply (fill_past_capacity 3).
  - unfold INT_MAX. lia.
  - reflexivity.
Defined.

(** ** Recording after an undo *)

(** C6: on a well-formed log, the first loop of [pushAndExecuteCommand]
    destroys every command from the tail up to [head + count], the ones that
    were undone and not redone, keeps the applied ones, and counts the
    commands it destroyed; the count is lowered by that number before the
    new command is stored. The recording returns a log whose retained
    commands are the applied ones (the oldest evicted when the ring is full)
    followed by the new one, all of them applied, and on which [redo] has
    nothing to do. *)
Theorem record_truncates_redo_branch (us : UndoSystemData) (c : Command)
    (am : AnimationManagerData) :
  wf us ->
  exists hist1 us',
    UndoSystem.removeAfterTail (Z.to_nat (maxHistorySize us)) (history us)
      (undoCursorTail us)
      (u32 (undoCursorHead us + numCommands us) mod maxHistorySize us)
      (maxHistorySize us) 0
    = Done (hist1, numCommands us - applied us)
    /\ (forall k, applied us <= k < numCommands us ->
          hist1 !! Z.to_nat ((undoCursorHead us + k) mod maxHistorySize us)
          = Some None)
    /\ (forall k, 0 <= k < applied us ->
          hist1 !! Z.to_nat ((undoCursorHead us + k) mod maxHistorySize us)
          = history us !! Z.to_nat ((undoCursorHead us + k) mod maxHistorySize us))
    /\ UndoSystem.pushAndExecuteCommand us c am
       = Done (us', (Command_execute c am).2)
    /\ retained us'
       = (if applied us =? maxHistorySize us - 1
          then drop 1 (take (Z.to_nat (applied us)) (retained us))
          else take (Z.to_nat (applied us)) (retained us))
         ++ [(Command_execute c am).1]
    /\ applied us' = numCommands us'
    /\ numCommands us'
       = (if applied us =? maxHistorySize us - 1 then applied us - 1
          else applied us) + 1
    /\ forall am2, UndoSystem.redo us' am2 = Done (us', am2).
Proof.
  intros Hwf. pose proof (wf_represents us Hwf) as Hrep.
  pose proof Hrep as (Hm & Hh & Hnum & Hcap & Ha & Htail & Hs).
  pose proof (represents_applied _ _ _ Hrep) as Happ.
  assert (0 <= applied us) as Happ0.
  { unfold applied. apply Z.mod_pos_bound. lia. }
  rewrite Z2Nat.id in Happ, Htail by lia.
  assert (applied us <= Z.of_nat (length (retained us))) as Hale by lia.
  set (l := retained us) in *. set (a := Z.to_nat (applied us)) in *.
  unfold INT_MAX in Hm.
  destruct (truncate_spec (history us) (maxHistorySize us) (undoCursorHead us) l a)
    as (hist1 & Hrun & Hs1 & Hget); unfold INT_MAX; try done; try lia.
  destruct (push_spec us l a c am Hrep) as (us' & Hpush & Hrep' & Hmax & Hhead).
  exists hist1, us'.
  rewrite u32_small by lia.
  replace (Z.of_nat a) with (applied us) in * by lia.
  rewrite <- Hnum, <- Htail in Hrun. split; [done|].
  assert (forall k, 0 <= k < maxHistorySize us ->
            0 <= (undoCursorHead us + k) mod maxHistorySize us < maxHistorySize us)
    as Hpos by (intros; apply Z.mod_pos_bound; lia).
  split; [|split].
  - intros k Hk. pose proof (Hpos k ltac:(lia)).
    rewrite Hget, ring_shift, ring_back by lia.
    rewrite <- Hnum. ring_cases.
  - intros k Hk. pose proof (Hpos k ltac:(lia)).
    rewrite Hget, ring_shift, ring_back by lia.
    rewrite <- Hnum. ring_cases.
  - split; [done|].
    rewrite (represents_retained _ _ _ Hrep').
    rewrite (represents_applied _ _ _ Hrep').
    assert (bool_decide (applied us = maxHistorySize us - 1)
            = (applied us =? maxHistorySize us - 1)) as Hdec.
    { destruct (Z.eqb_spec (applied us) (maxHistorySize us - 1)).
      - by apply bool_decide_eq_true_2.
      - by apply bool_decide_eq_false_2. }
    rewrite Hdec in *. split; [done|].
    pose proof Hrep' as (_ & _ & Hnum' & _).
    rewrite length_app in Hnum'. cbn [length] in Hnum'.
    split; [lia|]. split.
    + rewrite Hnum'.
      destruct (applied us =? maxHistorySize us - 1) eqn:Hfull.
      * apply Z.eqb_eq in Hfull. rewrite length_drop, length_take. lia.
      * rewrite length_take. lia.
    + intros am2. pose proof (redo_spec us' _ _ am2 Hrep') as Hredo.
      rewrite length_app in Hredo. cbn [length] in Hredo.
      by destruct (decide _); [|lia].
Qed.

Lemma record_truncates_redo_branch_witness :
  (exists am',
     run [OpRecord (sampleCommand 1); OpRecord (sampleCommand 2);
          OpRecord (sampleCommand 3); OpUndo; OpUndo] (freshLog 4, sampleStore)
     = Done (sampleLog, am'))
  /\ wf sampleLog
  /\ exists hist1 us',
       UndoSystem.removeAfterTail 4 (history sampleLog) 1 3 4 0 = Done (hist1, 2)
       /\ hist1 = [Some (sampleCommand 1); None; None; None]
       /\ UndoSystem.pushAndExecuteCommand sampleLog (sampleCommand 4) sampleStore
          = Done (us', (Command_execute (sampleCommand 4) sampleStore).2)
       /\ retained us' = [sampleCommand 1; sampleCommand 4]
       /\ forall am2, UndoSystem.redo us' am2 = Done (us', am2).
Proof.
  split; [eexists; vm_compute; reflexivity|]. split; [reflexivity|].
  destruct (record_truncates_redo_branch sampleLog (sampleCommand 4) sampleStore)
    as (hist1 & us' & Hloop & _ & _ & Hpush & Hret & _ & _ & Hredo);
    [reflexivity|].
  exists hist1, us'. split; [exact Hloop|]. split.
  - vm_compute in Hloop. injection Hloop as <-. reflexivity.
  - split; [exact Hpush|]. split; [exact Hret|exact Hredo].
Defined.

(** ** Apply, undo, redo of one property change *)

Lemma setProp_setProp pt v w o : setProp pt v (setProp pt w o) = setProp pt v o.
Proof. by destruct pt, o. Qed.

Lemma writeProp_writeProp pt v w id objs :
  writeProp pt v id (writeProp pt w id objs) = writeProp pt v id objs.
Proof.
  unfold writeProp. destruct (objs !! id) as [o|] eqn:Ho.
  - by rewrite lookup_insert_eq, insert_insert_eq, setProp_setProp.
  - by rewrite Ho.
Qed.

Lemma modify_execute_objects id v pt am :
  objects (ModifyU8Vec4Command_execute id v pt am) = writeProp pt v id (objects am)
  /\ childrenOf (ModifyU8Vec4Command_execute id v pt am) = childrenOf am.
Proof.
  unfold ModifyU8Vec4Command_execute, writeProp, getMutableObject.
  destruct (objects am !! id); by destruct pt.
Qed.

Lemma modify_undo_objects id v pt am :
  objects (ModifyU8Vec4Command_undo id v pt am) = writeProp pt v id (objects am)
  /\ childrenOf (ModifyU8Vec4Command_undo id v pt am) = childrenOf am.
Proof.
  unfold ModifyU8Vec4Command_undo, writeProp, getMutableObject.
  destruct (objects am !! id); by destruct pt.
Qed.

Lemma undo_redo_last us1 l2 c :
  represents us1 (l2 ++ [c]) (S (length l2)) ->
  (forall am, (Command_execute c am).1 = c) ->
  exists us2, forall am1,
    UndoSystem.undo us1 am1 = Done (us2, Command_undo c am1)
    /\ UndoSystem.redo us2 (Command_undo c am1)
       = Done (us1, (Command_execute c (Command_undo c am1)).2).
Proof.
  intros Hrep Hsame.
  assert (forall am1, exists us2,
            UndoSystem.undo us1 am1 = Done (us2, Command_undo c am1)
            /\ represents us2 (l2 ++ [c]) (length l2)
            /\ undoCursorHead us2 = undoCursorHead us1
            /\ maxHistorySize us2 = maxHistorySize us1) as Hundo.
  { intros am1.
    destruct (undo_spec us1 _ _ am1 Hrep) as (c0 & us2 & Hc0 & Hrun & Hrep2 & _ & Hh & Hm).
    rewrite list_lookup_middle in Hc0 by done. injection Hc0 as <-.
    by exists us2. }
  destruct (Hundo (mkAM ∅ ∅ [])) as (us2 & _ & Hrep2 & Hh2 & Hm2).
  exists us2. intros am1.
  destruct (Hundo am1) as (us2' & Hrun & Hrep2' & Hh2' & Hm2').
  assert (us2' = us2) as -> by (eapply represents_inj; eauto; congruence).
  split; [done|].
  pose proof (redo_spec us2 _ _ (Command_undo c am1) Hrep2) as Hredo.
  destruct (decide (length l2 = length (l2 ++ [c]))) as [Hbad|_].
  { rewrite length_app in Hbad. cbn in Hbad. lia. }
  destruct Hredo as (c0 & us3 & Hc0 & Hrun3 & Hrep3 & Hh3 & Hm3).
  rewrite list_lookup_middle in Hc0 by done. injection Hc0 as <-.
  rewrite Hsame in Hrep3.
  rewrite list_insert_id in Hrep3 by (by apply list_lookup_middle).
  assert (us3 = us1) as -> by (eapply represents_inj; eauto; congruence).
  done.
Qed.

(** C4: on a well-formed log, a property change that is recorded, undone and
    redone leaves the log as the recording left it and every object as the
    forward application left it: the target, when it is in the store, holds
    the new value in the selected property. Undoing and redoing once more
    gives the same log and the same objects again. *)
Theorem modify_apply_undo_redo (us : UndoSystemData) (am : AnimationManagerData)
    (objId : AnimObjId) (oldVec newVec : u8vec4) (propType : U8Vec4PropType) :
  wf us ->
  exists us1 us2 am1 am2 am3 am4 am5,
    UndoSystem.setU8Vec4Prop us objId oldVec newVec propType am = Done (us1, am1)
    /\ UndoSystem.undo us1 am1 = Done (us2, am2)
    /\ UndoSystem.redo us2 am2 = Done (us1, am3)
    /\ objects am3 = objects am1
    /\ childrenOf am3 = childrenOf am1
    /\ (forall obj, getMutableObject am objId = Some obj ->
          getMutableObject am1 objId = Some (setProp propType newVec obj)
          /\ getMutableObject am2 objId = Some (setProp propType oldVec obj)
          /\ getMutableObject am3 objId = Some (setProp propType newVec obj))
    /\ UndoSystem.undo us1 am3 = Done (us2, am4)
    /\ UndoSystem.redo us2 am4 = Done (us1, am5)
    /\ objects am5 = objects am3
    /\ childrenOf am5 = childrenOf am3.
Proof.
  intros Hwf. pose proof (wf_represents us Hwf) as Hrep.
  set (c := ModifyU8Vec4Command objId oldVec newVec propType).
  destruct (push_spec us _ _ c am Hrep) as (us1 & Hpush & Hrep1 & _).
  rewrite Nat.add_1_r in Hrep1.
  assert (forall x, (Command_execute c x).1 = c) as Hsame by done.
  rewrite Hsame in Hrep1.
  destruct (undo_redo_last us1 _ c Hrep1 Hsame) as (us2 & Hround).
  set (am1 := ModifyU8Vec4Command_execute objId newVec propType am).
  set (am2 := ModifyU8Vec4Command_undo objId oldVec propType am1).
  set (am3 := ModifyU8Vec4Command_execute objId newVec propType am2).
  set (am4 := ModifyU8Vec4Command_undo objId oldVec propType am3).
  set (am5 := ModifyU8Vec4Command_execute objId newVec propType am4).
  exists us1, us2, am1, am2, am3, am4, am5.
  destruct (Hround am1) as [Hu1 Hr1]. destruct (Hround am3) as [Hu3 Hr3].
  assert (objects am1 = writeProp propType newVec objId (objects am)) as Ho1
    by apply modify_execute_objects.
  assert (objects am2 = writeProp propType oldVec objId (objects am)) as Ho2.
  { unfold am2. rewrite (proj1 (modify_undo_objects _ _ _ _)), Ho1.
    apply writeProp_writeProp. }
  assert (objects am3 = objects am1) as Ho3.
  { unfold am3. rewrite (proj1 (modify_execute_objects _ _ _ _)), Ho2, Ho1.
    apply writeProp_writeProp. }
  assert (objects am5 = objects am3) as Ho5.
  { unfold am5, am4.
    rewrite (proj1 (modify_execute_objects _ _ _ _)),
            (proj1 (modify_undo_objects _ _ _ _)), writeProp_writeProp.
    rewrite Ho3, Ho1. apply writeProp_writeProp. }
  split; [exact Hpush|]. split; [exact Hu1|]. split; [exact Hr1|].
  split; [exact Ho3|].
  split.
  { unfold am3, am2. by rewrite (proj2 (modify_execute_objects _ _ _ _)),
                                (proj2 (modify_undo_objects _ _ _ _)). }
  split.
  { intros obj Hobj. unfold getMutableObject in *.
    rewrite Ho3, Ho2, Ho1. unfold writeProp. rewrite Hobj.
    by rewrite !lookup_insert_eq. }
  split; [exact Hu3|]. split; [exact Hr3|]. split; [exact Ho5|].
  unfold am5, am4. by rewrite (proj2 (modify_execute_objects _ _ _ _)),
                              (proj2 (modify_undo_objects _ _ _ _)).
Qed.

Lemma modify_apply_undo_redo_witness :
  wf sampleLog
  /\ exists us1 am1 am3,
       UndoSystem.setU8Vec4Prop sampleLog 2 green red StrokeColor sampleStore
       = Done (us1, am1)
       /\ UndoSystem.undo us1 am1 ≫= (fun st => UndoSystem.redo st.1 st.2)
          = Done (us1, am3)
       /\ objects am3 = objects am1
       /\ getMutableObject am3 2 = Some (mkAnimObject green red).
Proof.
  split; [reflexivity|].
  destruct (modify_apply_undo_redo sampleLog sampleStore 2 green red StrokeColor)
    as (us1 & us2 & am1 & am2 & am3 & am4 & am5
        & Hpush & Hundo & Hredo & Hobjs & _ & Hget & _); [reflexivity|].
  exists us1, am1, am3. split; [exact Hpush|]. split.
  - rewrite Hundo. exact Hredo.
  - split; [exact Hobjs|]. apply (Hget (mkAnimObject green yellow)). reflexivity.
Defined.

(** ** Undo of the cascading command *)

Lemma restoreChild_lookup pt oldProps am x d :
  objects (restoreChild pt oldProps am x) !! d
  = (if decide (d = x) then restored pt oldProps d (objects am !! d)
     else objects am !! d)
  /\ childrenOf (restoreChild pt oldProps am x) = childrenOf am
  /\ stateUpdates (restoreChild pt oldProps am x) = stateUpdates am.
Proof.
  unfold restoreChild, restored, getMutableObject.
  destruct (decide (d = x)) as [->|Hne].
  - destruct (objects am !! x) as [o|] eqn:Ho; [|by rewrite Ho].
    destruct (oldProps !! x) as [v|]; [|by rewrite Ho].
    destruct pt; cbn; by rewrite lookup_insert_eq.
  - destruct (objects am !! x) as [o|] eqn:Ho; [|done].
    destruct (oldProps !! x) as [v|]; [|done].
    destruct pt; cbn; by rewrite lookup_insert_ne.
Qed.

Lemma restored_idemp pt oldProps d oo :
  restored pt oldProps d (restored pt oldProps d oo) = restored pt oldProps d oo.
Proof.
  unfold restored. destruct oo as [o|]; [|done].
  destruct (oldProps !! d); [|done]. by rewrite setProp_setProp.
Qed.

Lemma restore_fold pt oldProps ds :
  forall am d,
    objects (foldl (restoreChild pt oldProps) am ds) !! d
    = (if decide (d ∈ ds) then restored pt oldProps d (objects am !! d)
       else objects am !! d)
    /\ childrenOf (foldl (restoreChild pt oldProps) am ds) = childrenOf am
    /\ stateUpdates (foldl (restoreChild pt oldProps) am ds) = stateUpdates am.
Proof.
  induction ds as [|x ds IH]; intros am d.
  - cbn. rewrite decide_False by apply not_elem_of_nil. done.
  - cbn [foldl].
    destruct (IH (restoreChild pt oldProps am x) d) as (Hobj & Hch & Hup).
    destruct (restoreChild_lookup pt oldProps am x d) as (Hobj1 & Hch1 & Hup1).
    rewrite Hobj, Hch, Hup, Hobj1, Hch1, Hup1. split; [|done].
    destruct (decide (d = x)) as [->|Hne].
    + rewrite (decide_True (P := x ∈ x :: ds)) by apply list_elem_of_here.
      destruct (decide (x ∈ ds)); [apply restored_idemp|done].
    + destruct (decide (d ∈ ds)) as [Hin|Hnin].
      * rewrite decide_True by (by apply list_elem_of_further). done.
      * rewrite decide_False; [done|].
        intros [->|Hin]%elem_of_cons; done.
Qed.

Lemma apply_fold_keeps_entry objId pt ds :
  forall P am d,
    d ∉ ds -> (foldl (applyToChild objId pt) (P, am) ds).1 !! d = P !! d.
Proof.
  induction ds as [|x ds IH]; intros P am d Hd; [done|].
  apply not_elem_of_cons in Hd as [Hne Hd]. cbn [foldl].
  assert ((applyToChild objId pt (P, am) x).1 !! d = P !! d) as Hstep.
  { unfold applyToChild.
    destruct (getMutableObject am x); [|done].
    destruct (getMutableObject am objId); [|done].
    destruct pt; cbn; by rewrite lookup_insert_ne. }
  destruct (applyToChild objId pt (P, am) x) as [P1 am1]. cbn [fst snd] in *.
  by rewrite IH.
Qed.

(** C3, as the specification states it, fails. The cascading command is
    executed on [sampleStore] and undone; object 3 is detached; the command
    is executed again, which is the most recent snapshot and does not reach
    object 3; object 3 is attached again, with a blue fill colour. The undo
    that follows finds the entry the first execution recorded for object 3
    and writes its yellow over the blue: a descendant added to the graph
    after the snapshot was taken is not left untouched. *)
Lemma apply_to_children_undo_counterexample :
  (3 ∉ descendantsBreadthFirst cascadeDetached 1)
  /\ (3 ∈ descendantsBreadthFirst cascadeAttached 1)
  /\ snapshotOf (cascadeTwice.1) !! 3 = Some yellow
  /\ getMutableObject cascadeAttached 3 = Some (mkAnimObject blue green)
  /\ getMutableObject (Command_undo (cascadeTwice.1) cascadeAttached) 3
     = Some (mkAnimObject yellow green)
  /\ getMutableObject (Command_undo (cascadeTwice.1) cascadeAttached) 3
     <> getMutableObject cascadeAttached 3.
Proof.
  split.
  { vm_compute. intros Hin.
    repeat (apply elem_of_cons in Hin as [Hin|Hin]; [discriminate|]).
    by apply not_elem_of_nil in Hin. }
  split; [vm_compute; apply list_elem_of_further, list_elem_of_here|].
  split; [reflexivity|]. split; [reflexivity|]. split; [reflexivity|].
  vm_compute. discriminate.
Qed.

(** C3, amended: undoing the cascading command while its target is in the
    store writes, for every descendant the traversal reaches now that is in
    the store and has an entry in the snapshot, the recorded value into the
    selected property, whichever execution recorded the entry, and then
    notifies the store once, for the target. An object the traversal no
    longer reaches is left as it is, whatever the snapshot holds for it; a
    descendant is left as it is when the snapshot has no entry for it. The
    snapshot is never cleared: an execution keeps the entry of every
    identifier it does not reach, so a descendant that an earlier execution
    recorded and that is attached again after the latest one is written
    with the entry of the earlier one. *)
Theorem apply_to_children_undo (am : AnimationManagerData) (objId : AnimObjId)
    (propType : U8Vec4PropType) (oldProps : gmap AnimObjId u8vec4)
    (obj : AnimObject) :
  getMutableObject am objId = Some obj ->
  let am' := Command_undo (ApplyU8Vec4ToChildrenCommand objId propType oldProps) am in
  (forall d o v,
      d ∈ descendantsBreadthFirst am objId ->
      getMutableObject am d = Some o ->
      oldProps !! d = Some v ->
      getMutableObject am' d = Some (setProp propType v o))
  /\ (forall d, d ∉ descendantsBreadthFirst am objId ->
         getMutableObject am' d = getMutableObject am d)
  /\ (forall d, oldProps !! d = None ->
         getMutableObject am' d = getMutableObject am d)
  /\ stateUpdates am' = stateUpdates am ++ [objId]
  /\ childrenOf am' = childrenOf am
  /\ (forall am0 d,
         d ∉ descendantsBreadthFirst am0 objId ->
         snapshotOf (Command_execute
                       (ApplyU8Vec4ToChildrenCommand objId propType oldProps)
                       am0).1 !! d
         = oldProps !! d).
Proof.
  intros Hobj am'. subst am'. cbn [Command_undo].
  unfold ApplyU8Vec4ToChildrenCommand_undo. rewrite Hobj.
  unfold getMutableObject, updateObjectState. cbn [objects childrenOf stateUpdates].
  pose proof (restore_fold propType oldProps (descendantsBreadthFirst am objId) am)
    as Hfold.
  split; [|split; [|split; [|split; [|split]]]].
  - intros d o v Hin Ho Hv. rewrite (proj1 (Hfold d)), decide_True by done.
    unfold restored. by rewrite Ho, Hv.
  - intros d Hnin. by rewrite (proj1 (Hfold d)), decide_False.
  - intros d Hnone. rewrite (proj1 (Hfold d)). destruct (decide _); [|done].
    unfold restored. rewrite Hnone. by destruct (objects am !! d).
  - by rewrite (proj2 (proj2 (Hfold objId))).
  - by rewrite (proj1 (proj2 (Hfold objId))).
  - intros am0 d Hd. cbn [Command_execute].
    unfold ApplyU8Vec4ToChildrenCommand_execute.
    destruct (getMutableObject am0 objId); [|done].
    pose proof (apply_fold_keeps_entry objId propType _ oldProps am0 d Hd) as Hkeep.
    destruct (foldl (applyToChild objId propType) (oldProps, am0)
                    (descendantsBreadthFirst am0 objId)) as [P' am1].
    done.
Qed.

Lemma apply_to_children_undo_witness :
  getMutableObject
    (Command_undo (ApplyU8Vec4ToChildrenCommand 1 StrokeColor {[ 2 := red; 7 := blue ]})
                  sampleStore) 2
  = Some (mkAnimObject green red)
  /\ getMutableObject
       (Command_undo (ApplyU8Vec4ToChildrenCommand 1 StrokeColor {[ 2 := red; 7 := blue ]})
                     sampleStore) 3
     = getMutableObject sampleStore 3
  /\ getMutableObject
       (Command_undo (ApplyU8Vec4ToChildrenCommand 1 StrokeColor {[ 2 := red; 7 := blue ]})
                     sampleStore) 7
     = getMutableObject sampleStore 7
  /\ stateUpdates
       (Command_undo (ApplyU8Vec4ToChildrenCommand 1 StrokeColor {[ 2 := red; 7 := blue ]})
                     sampleStore)
     = stateUpdates sampleStore ++ [1]
  /\ snapshotOf
       (Command_execute
          (ApplyU8Vec4ToChildrenCommand 1 StrokeColor {[ 2 := red; 7 := blue ]})
          sampleStore).1 !! 7
     = Some blue.
Proof.
  destruct (apply_to_children_undo sampleStore 1 StrokeColor
              {[ 2 := red; 7 := blue ]} (mkAnimObject red blue))
    as (Hres & Hgone & Hnew & Hupd & _ & Hkeep); [reflexivity|].
  assert (7 ∉ descendantsBreadthFirst sampleStore 1) as H7.
  { vm_compute. intros Hin.
    repeat (apply elem_of_cons in Hin as [Hin|Hin]; [discriminate|]).
    by apply not_elem_of_nil in Hin. }
  split; [|split; [|split; [|split]]].
  - apply (Hres 2 (mkAnimObject green yellow) red); [|reflexivity|reflexivity].
    vm_compute. apply list_elem_of_here.
  - apply Hnew. reflexivity.
  - apply Hgone. exact H7.
  - exact Hupd.
  - rewrite (Hkeep sampleStore 7 H7). reflexivity.
Defined.

(** ** Execution of the cascading command *)

Example descendants_of_sample :
  descendantsBreadthFirst sampleStore 1 = [2; 3; 4].
Proof. reflexivity. Qed.

Lemma applyToChild_frame objId pt P am x :
  childrenOf (applyToChild objId pt (P, am) x).2 = childrenOf am
  /\ stateUpdates (applyToChild objId pt (P, am) x).2 = stateUpdates am
  /\ forall d, objects am !! d = None ->
       objects (applyToChild objId pt (P, am) x).2 !! d = None
       /\ (applyToChild objId pt (P, am) x).1 !! d = P !! d.
Proof.
  unfold applyToChild, getMutableObject.
  destruct (objects am !! x) as [ox|] eqn:Hx; [|done].
  destruct (objects am !! objId) as [obj|]; [|done].
  destruct pt; cbn; (split; [done|]; split; [done|]);
    intros d Hd; assert (x <> d) by congruence;
    by rewrite !lookup_insert_ne.
Qed.

Lemma apply_fold_frame objId pt ds :
  forall P am,
    childrenOf (foldl (applyToChild objId pt) (P, am) ds).2 = childrenOf am
    /\ stateUpdates (foldl (applyToChild objId pt) (P, am) ds).2 = stateUpdates am
    /\ forall d, objects am !! d = None ->
         objects (foldl (applyToChild objId pt) (P, am) ds).2 !! d = None
         /\ (foldl (applyToChild objId pt) (P, am) ds).1 !! d = P !! d.
Proof.
  induction ds as [|x ds IH]; intros P am; [done|].
  cbn [foldl].
  destruct (applyToChild_frame objId pt P am x) as (Hch1 & Hup1 & Hno1).
  destruct (applyToChild objId pt (P, am) x) as [P1 am1]. cbn [fst snd] in *.
  destruct (IH P1 am1) as (Hch & Hup & Hno).
  rewrite Hch, Hup, Hch1, Hup1. do 2 (split; [done|]).
  intros d Hd. destruct (Hno1 d Hd) as [Hd1 HP1].
  destruct (Hno d Hd1) as [Hd' HP']. by rewrite Hd', HP', HP1.
Qed.

(** What the loop of [execute] does to the descendants, for either selector:
    the snapshot receives the selected property of the child, and the fill
    colour of the child receives the selected property of the target. *)
Lemma apply_fold objId pt obj ds :
  NoDup ds -> objId ∉ ds ->
  forall P am,
    objects am !! objId = Some obj ->
    forall d,
      (d ∈ ds -> forall o, objects am !! d = Some o ->
         (foldl (applyToChild objId pt) (P, am) ds).1 !! d = Some (getProp pt o)
         /\ objects (foldl (applyToChild objId pt) (P, am) ds).2 !! d
            = Some (set_fillColorStart (getProp pt obj) o))
      /\ (d ∉ ds ->
          (foldl (applyToChild objId pt) (P, am) ds).1 !! d = P !! d
          /\ objects (foldl (applyToChild objId pt) (P, am) ds).2 !! d
             = objects am !! d).
Proof.
  intros Hnd Hnot. induction ds as [|x ds IH]; intros P am Hobj d.
  - cbn. split; [intros Hin; by apply not_elem_of_nil in Hin|done].
  - apply NoDup_cons in Hnd as [Hx Hnd].
    apply not_elem_of_cons in Hnot as [Hne Hnot].
    specialize (IH Hnd Hnot). cbn [foldl].
    assert (exists P1 am1,
              applyToChild objId pt (P, am) x = (P1, am1)
              /\ objects am1 !! objId = Some obj
              /\ (forall e, e <> x ->
                    P1 !! e = P !! e /\ objects am1 !! e = objects am !! e)
              /\ (forall o, objects am !! x = Some o ->
                    P1 !! x = Some (getProp pt o)
                    /\ objects am1 !! x
                       = Some (set_fillColorStart (getProp pt obj) o))
              /\ (objects am !! x = None ->
                    P1 !! x = P !! x /\ objects am1 !! x = None)) as Hstep.
    { unfold applyToChild, getMutableObject. rewrite Hobj.
      destruct (objects am !! x) as [ox|] eqn:Hox.
      - destruct pt; eexists; eexists; (split; [reflexivity|]); cbn;
          rewrite ?lookup_insert_eq;
          (split; [by rewrite lookup_insert_ne|]);
          (split; [intros e He; by rewrite !lookup_insert_ne|]);
          (split; [intros o [= <-]; done|done]).
      - exists P, am. rewrite Hox. repeat split; try done. }
    destruct Hstep as (P1 & am1 & -> & Hobj1 & Hother & Hpres & Habs).
    destruct (IH P1 am1 Hobj1 d) as [Hin Hout].
    split.
    + intros [->|Hd]%elem_of_cons o Ho.
      * destruct (Hpres o Ho) as [HP Hob].
        destruct (IH P1 am1 Hobj1 x) as [_ Hout']. destruct (Hout' Hx) as [-> ->].
        done.
      * assert (d <> x) as Hdx by (intros ->; done).
        destruct (Hother d Hdx) as [_ Hsame]. apply Hin; [done|].
        by rewrite Hsame.
    + intros [Hdx Hd]%not_elem_of_cons.
      destruct (Hout Hd) as [-> ->]. by apply Hother.
Qed.

(** Executing the cascading command while its target is in the store, when
    the traversal reaches no object twice and not the target itself: for
    either selector the snapshot receives, for each descendant in the store,
    the value the selected property has, and the target's value of the
    selected property is written to the fill colour of the descendant.
    Objects the traversal does not reach are left as they are, and the store
    is notified once, for the target. *)
Lemma apply_to_children_execute (am : AnimationManagerData) (objId : AnimObjId)
    (propType : U8Vec4PropType) (oldProps : gmap AnimObjId u8vec4)
    (obj : AnimObject) :
  getMutableObject am objId = Some obj ->
  NoDup (descendantsBreadthFirst am objId) ->
  objId ∉ descendantsBreadthFirst am objId ->
  exists oldProps' am',
    Command_execute (ApplyU8Vec4ToChildrenCommand objId propType oldProps) am
    = (ApplyU8Vec4ToChildrenCommand objId propType oldProps', am')
    /\ (forall d o,
          d ∈ descendantsBreadthFirst am objId ->
          getMutableObject am d = Some o ->
          oldProps' !! d = Some (getProp propType o)
          /\ getMutableObject am' d
             = Some (set_fillColorStart (getProp propType obj) o))
    /\ (forall d, d ∉ descendantsBreadthFirst am objId ->
          oldProps' !! d = oldProps !! d
          /\ getMutableObject am' d = getMutableObject am d)
    /\ stateUpdates am' = stateUpdates am ++ [objId]
    /\ childrenOf am' = childrenOf am.
Proof.
  intros Hobj Hnd Hnot. cbn [Command_execute].
  unfold ApplyU8Vec4ToChildrenCommand_execute. rewrite Hobj.
  pose proof (apply_fold objId propType obj _ Hnd Hnot oldProps am Hobj) as Hfold.
  destruct (apply_fold_frame objId propType (descendantsBreadthFirst am objId)
              oldProps am) as (Hch & Hup & _).
  destruct (foldl (applyToChild objId propType) (oldProps, am)
                  (descendantsBreadthFirst am objId)) as [P' am'].
  cbn [fst snd] in *. eexists. eexists. split; [reflexivity|].
  unfold getMutableObject, updateObjectState. cbn [objects childrenOf stateUpdates].
  split; [|split; [|split]].
  - intros d o Hin Ho. by apply (proj1 (Hfold d)).
  - intros d Hnin. by apply (proj2 (Hfold d)).
  - by rewrite Hup.
  - done.
Qed.

(** C2 fails for the stroke colour. Object 1 (fill red, stroke blue) is the
    parent of object 2 (fill green, stroke yellow). Executing the cascading
    command for [StrokeColor] on object 1 records yellow for object 2, as the
    claim says, and then writes the blue of the target's stroke into the
    fill colour of object 2: its stroke colour is still yellow and its fill
    colour, green before, is lost. For [FillColor] the same call copies the
    fill colour to the fill colour. *)
Theorem apply_to_children_stroke_slip :
  getMutableObject sampleStore 1 = Some (mkAnimObject red blue)
  /\ getMutableObject sampleStore 2 = Some (mkAnimObject green yellow)
  /\ 2 ∈ descendantsBreadthFirst sampleStore 1
  /\ (Command_execute (ApplyU8Vec4ToChildrenCommand 1 StrokeColor ∅) sampleStore).1
     = ApplyU8Vec4ToChildrenCommand 1 StrokeColor
         {[ 2 := yellow; 3 := green; 4 := red ]}
  /\ getMutableObject
       (Command_execute (ApplyU8Vec4ToChildrenCommand 1 StrokeColor ∅) sampleStore).2
       2
     = Some (mkAnimObject blue yellow)
  /\ getMutableObject
       (Command_execute (ApplyU8Vec4ToChildrenCommand 1 StrokeColor ∅) sampleStore).2
       2
     <> Some (setProp StrokeColor blue (mkAnimObject green yellow))
  /\ getMutableObject
       (Command_execute (ApplyU8Vec4ToChildrenCommand 1 FillColor ∅) sampleStore).2
       2
     = Some (setProp FillColor red (mkAnimObject green yellow)).
Proof.
  split; [reflexivity|]. split; [reflexivity|].
  split; [vm_compute; apply list_elem_of_here|].
  split; [vm_compute; reflexivity|]. split; [reflexivity|].
  split; [|reflexivity].
  vm_compute. discriminate.
Qed.

(** ** Targets that are not in the store *)

Lemma execute_absent c am :
  getMutableObject am (commandTarget c) = None ->
  Command_execute c am = (c, am) /\ Command_undo c am = am.
Proof.
  destruct c as [objId oldVec newVec pt|objId pt oldProps]; cbn;
    unfold ModifyU8Vec4Command_execute, ModifyU8Vec4Command_undo,
           ApplyU8Vec4ToChildrenCommand_execute, ApplyU8Vec4ToChildrenCommand_undo,
           getMutableObject;
    by intros ->.
Qed.

Lemma execute_skips_absent c am d :
  getMutableObject am d = None ->
  getMutableObject (Command_execute c am).2 d = None
  /\ exists extra,
       stateUpdates (Command_execute c am).2 = stateUpdates am ++ extra
       /\ d ∉ extra.
Proof.
  unfold getMutableObject. intros Hd.
  assert (forall objId, is_Some (objects am !! objId) -> d ∉ [objId]) as Hne.
  { intros objId [o Ho] ->%list_elem_of_singleton. congruence. }
  destruct c as [objId oldVec newVec pt|objId pt oldProps]; cbn.
  - unfold ModifyU8Vec4Command_execute, getMutableObject.
    destruct (objects am !! objId) as [obj|] eqn:Hobj.
    + cbn. assert (objId <> d) by congruence.
      rewrite lookup_insert_ne by done. split; [done|].
      exists [objId]. split; [done|]. apply Hne. by rewrite Hobj.
    + split; [done|]. exists []. rewrite app_nil_r. split; [done|].
      apply not_elem_of_nil.
  - unfold ApplyU8Vec4ToChildrenCommand_execute, getMutableObject.
    destruct (objects am !! objId) as [obj|] eqn:Hobj.
    + destruct (apply_fold_frame objId pt (descendantsBreadthFirst am objId)
                  oldProps am) as (_ & Hup & Hno).
      destruct (Hno d Hd) as [Hd' _].
      destruct (foldl (applyToChild objId pt) (oldProps, am)
                      (descendantsBreadthFirst am objId)) as [P' am'].
      cbn in *. split; [done|]. exists [objId]. rewrite Hup. split; [done|].
      apply Hne. by rewrite Hobj.
    + cbn. split; [done|]. exists []. rewrite app_nil_r. split; [done|].
      apply not_elem_of_nil.
Qed.

Lemma undo_skips_absent c am d :
  getMutableObject am d = None ->
  getMutableObject (Command_undo c am) d = None
  /\ exists extra,
       stateUpdates (Command_undo c am) = stateUpdates am ++ extra
       /\ d ∉ extra.
Proof.
  unfold getMutableObject. intros Hd.
  assert (forall objId, is_Some (objects am !! objId) -> d ∉ [objId]) as Hne.
  { intros objId [o Ho] ->%list_elem_of_singleton. congruence. }
  destruct c as [objId oldVec newVec pt|objId pt oldProps]; cbn.
  - unfold ModifyU8Vec4Command_undo, getMutableObject.
    destruct (objects am !! objId) as [obj|] eqn:Hobj.
    + cbn. assert (objId <> d) by congruence.
      rewrite lookup_insert_ne by done. split; [done|].
      exists [objId]. split; [done|]. apply Hne. by rewrite Hobj.
    + split; [done|]. exists []. rewrite app_nil_r. split; [done|].
      apply not_elem_of_nil.
  - unfold ApplyU8Vec4ToChildrenCommand_undo, getMutableObject.
    destruct (objects am !! objId) as [obj|] eqn:Hobj.
    + destruct (restore_fold pt oldProps (descendantsBreadthFirst am objId) am d)
        as (Hlook & _ & Hup).
      cbn. rewrite Hlook, Hup, Hd. split; [by destruct (decide _)|].
      exists [objId]. split; [done|]. apply Hne. by rewrite Hobj.
    + split; [done|]. exists []. rewrite app_nil_r. split; [done|].
      apply not_elem_of_nil.
Qed.

(** C5: a command whose target is not in the store leaves the store, and
    itself, as they are, on [execute] and on [undo]. An object that is not in
    the store, a descendant among them, is not written and not notified by
    either. On a well-formed log no operation faults, whatever the store
    holds, and the bookkeeping is done whether or not the change takes
    effect: a recording advances the tail by one, with wrap-around, evicts
    at the head when the ring is full and sets the count to the number of
    applied commands kept plus one; an undo with something to undo moves the
    tail back by one, with wrap-around, and keeps head and count; a redo with
    something to redo advances the tail by one and keeps head and count. *)
Theorem missing_target_pass_through (us : UndoSystemData) (c : Command)
    (am : AnimationManagerData) (d : AnimObjId) :
  (getMutableObject am (commandTarget c) = None ->
     Command_execute c am = (c, am) /\ Command_undo c am = am)
  /\ (getMutableObject am d = None ->
      getMutableObject (Command_execute c am).2 d = None
      /\ getMutableObject (Command_undo c am) d = None
      /\ (exists extra,
            stateUpdates (Command_execute c am).2 = stateUpdates am ++ extra
            /\ d ∉ extra)
      /\ (exists extra,
            stateUpdates (Command_undo c am) = stateUpdates am ++ extra
            /\ d ∉ extra))
  /\ (wf us ->
      (forall am1,
         exists us',
           UndoSystem.pushAndExecuteCommand us c am1
           = Done (us', (Command_execute c am1).2)
           /\ wf us'
           /\ undoCursorTail us'
              = (undoCursorTail us + 1) mod maxHistorySize us
           /\ undoCursorHead us'
              = (if applied us =? maxHistorySize us - 1
                 then (undoCursorHead us + 1) mod maxHistorySize us
                 else undoCursorHead us)
           /\ numCommands us'
              = (if applied us =? maxHistorySize us - 1 then applied us - 1
                 else applied us) + 1)
      /\ (undoCursorHead us = undoCursorTail us ->
          forall am1, UndoSystem.undo us am1 = Done (us, am1))
      /\ (undoCursorHead us <> undoCursorTail us ->
          forall am1,
            exists c0 us',
              retained us !! (Z.to_nat (applied us) - 1)%nat = Some c0
              /\ UndoSystem.undo us am1 = Done (us', Command_undo c0 am1)
              /\ wf us'
              /\ undoCursorTail us'
                 = (undoCursorTail us - 1) mod maxHistorySize us
              /\ undoCursorHead us' = undoCursorHead us
              /\ numCommands us' = numCommands us)
      /\ ((undoCursorHead us + numCommands us) mod maxHistorySize us
          = undoCursorTail us ->
          forall am1, UndoSystem.redo us am1 = Done (us, am1))
      /\ ((undoCursorHead us + numCommands us) mod maxHistorySize us
          <> undoCursorTail us ->
          forall am1,
            exists c0 us',
              retained us !! Z.to_nat (applied us) = Some c0
              /\ UndoSystem.redo us am1 = Done (us', (Command_execute c0 am1).2)
              /\ wf us'
              /\ undoCursorTail us'
                 = (undoCursorTail us + 1) mod maxHistorySize us
              /\ undoCursorHead us' = undoCursorHead us
              /\ numCommands us' = numCommands us)).
Proof.
  split; [apply execute_absent|]. split.
  { intros Hd. destruct (execute_skips_absent c am d Hd) as [He Hne].
    destruct (undo_skips_absent c am d Hd) as [Hu Hnu]. done. }
  intros Hwf. pose proof (wf_represents us Hwf) as Hrep.
  pose proof (represents_applied _ _ _ Hrep) as Happ.
  pose proof Hrep as (Hm & Hh & Hnum & Hcap & Ha & Htail & _).
  set (l := retained us) in *. set (a := Z.to_nat (applied us)) in *.
  unfold INT_MAX in Hm.
  split; [|split; [|split; [|split]]].
  - intros am1.
    destruct (push_spec us l a c am1 Hrep) as (us' & Hpush & Hrep' & Hmax & Hhead).
    exists us'. split; [done|]. split; [by eapply represents_wf|].
    destruct Hrep' as (_ & _ & Hnum' & _ & _ & Htail' & _).
    rewrite length_app in Hnum'. cbn [length] in Hnum'.
    rewrite Htail', Hnum', Hhead, Hmax, Htail, Happ.
    assert (length (take a l) = a) as Hlen by (rewrite length_take; lia).
    destruct (Z.eqb_spec (Z.of_nat a) (maxHistorySize us - 1)) as [Hfull|Hroom].
    + rewrite bool_decide_eq_true_2 by done.
      rewrite length_drop, Hlen.
      replace (Z.of_nat (a - 1 + 1)) with (Z.of_nat a) by lia.
      split; [|split; [done|lia]].
      clear Hpush Hhead Htail Htail' Hnum'. clearbody a. ring_cases.
    + rewrite bool_decide_eq_false_2 by done. rewrite Hlen.
      split; [|split; [done|lia]].
      clear Hpush Hhead Htail Htail' Hnum'. clearbody a. ring_cases.
  - intros Heq am1. unfold UndoSystem.undo. by rewrite Heq, Z.eqb_refl.
  - intros Hne am1. pose proof (undo_spec us l a am1 Hrep) as Hundo.
    destruct a as [|a'] eqn:Ea.
    { exfalso. apply Hne. rewrite Htail. ring_cases. }
    destruct Hundo as (c0 & us' & Hc0 & Hundo & Hrep' & _ & Hhead & Hmax).
    exists c0, us'. replace (S a' - 1)%nat with a' by lia.
    split; [done|]. split; [done|]. split; [by eapply represents_wf|].
    destruct Hrep' as (_ & _ & Hnum' & _ & _ & Htail' & _).
    rewrite Htail', Hnum', Hhead, Hmax, Htail.
    split; [|split; [done|by rewrite Hnum]].
    clear Hundo Htail Htail' Hne. ring_cases.
  - intros Heq am1. unfold UndoSystem.redo.
    by rewrite u32_small, Heq, Z.eqb_refl by lia.
  - intros Hne am1. pose proof (redo_spec us l a am1 Hrep) as Hredo.
    destruct (decide (a = length l)) as [Hend|_].
    { exfalso. apply Hne. rewrite Htail, Hnum, Hend. done. }
    destruct Hredo as (c0 & us' & Hc0 & Hredo & Hrep' & Hhead & Hmax).
    exists c0, us'. split; [done|]. split; [done|].
    split; [by eapply represents_wf|].
    destruct Hrep' as (_ & _ & Hnum' & _ & _ & Htail' & _).
    rewrite length_insert in Hnum'.
    rewrite Htail', Hnum', Hhead, Hmax, Htail.
    split; [|split; [done|by rewrite Hnum]].
    clear Hredo Htail Htail' Hne. clearbody a. ring_cases.
Qed.

Lemma missing_target_pass_through_witness :
  (Command_execute (sampleCommand 9) sampleStore = (sampleCommand 9, sampleStore)
   /\ Command_undo (sampleCommand 9) sampleStore = sampleStore)
  /\ (2 ∈ descendantsBreadthFirst storeWithMissingChild 1)
  /\ getMutableObject
       (Command_execute (ApplyU8Vec4ToChildrenCommand 1 FillColor ∅)
                        storeWithMissingChild).2 2 = None
  /\ getMutableObject
       (Command_execute (ApplyU8Vec4ToChildrenCommand 1 FillColor ∅)
                        storeWithMissingChild).2 3
     = Some (mkAnimObject red green)
  /\ wf sampleLog
  /\ (exists us',
        UndoSystem.pushAndExecuteCommand sampleLog (sampleCommand 9) sampleStore
        = Done (us', sampleStore)
        /\ undoCursorTail us' = 2 /\ undoCursorHead us' = 0
        /\ numCommands us' = 2)
  /\ (exists c0 us',
        UndoSystem.undo sampleLog sampleStore = Done (us', Command_undo c0 sampleStore)
        /\ undoCursorTail us' = 0 /\ numCommands us' = 3)
  /\ (exists c0 us',
        UndoSystem.redo sampleLog sampleStore
        = Done (us', (Command_execute c0 sampleStore).2)
        /\ undoCursorTail us' = 2 /\ numCommands us' = 3).
Proof.
  destruct (missing_target_pass_through sampleLog (sampleCommand 9) sampleStore 9)
    as (Habs & _ & Hlog).
  destruct (missing_target_pass_through sampleLog
              (ApplyU8Vec4ToChildrenCommand 1 FillColor ∅) storeWithMissingChild 2)
    as (_ & Hdesc & _).
  destruct Hlog as (Hpush & _ & Hundo & _ & Hredo); [reflexivity|].
  split; [apply Habs; reflexivity|].
  split; [vm_compute; apply list_elem_of_here|].
  split; [apply Hdesc; reflexivity|].
  split; [reflexivity|]. split; [reflexivity|].
  split; [|split].
  - destruct (Hpush sampleStore) as (us' & Hrun & _ & Ht & Hh & Hn).
    exists us'. split; [exact Hrun|]. split; [exact Ht|]. split; [exact Hh|exact Hn].
  - destruct (Hundo ltac:(discriminate) sampleStore)
      as (c0 & us' & _ & Hrun & _ & Ht & _ & Hn).
    exists c0, us'. split; [exact Hrun|]. split; [exact Ht|exact Hn].
  - destruct (Hredo ltac:(discriminate) sampleStore)
      as (c0 & us' & _ & Hrun & _ & Ht & _ & Hn).
    exists c0, us'. split; [exact Hrun|]. split; [exact Ht|exact Hn].
Defined.

(** ** Tearing the log down *)

Lemma freeCommands_removeAfterTail fuel :
  forall hist i stop m removed hist1 n,
    UndoSystem.removeAfterTail fuel hist i stop m removed = Done (hist1, n) ->
    UndoSystem.freeCommands fuel hist i stop m = Done hist1.
Proof.
  induction fuel as [|fuel IH]; intros hist i stop m removed hist1 n; cbn.
  - destruct (i =? stop); [|discriminate]. by intros [= -> _].
  - destruct (i =? stop); [by intros [= -> _]|].
    destruct (destroyCommand hist i) as [hist'|f]; cbn; [|discriminate].
    apply IH.
Qed.

(** [free] on a well-formed log returns: it destroys every retained command,
    each of them once, and the slot array it releases holds no live
    command. *)
Theorem free_destroys_every_command (us : UndoSystemData) :
  wf us ->
  exists hist',
    UndoSystem.free us = Done hist'
    /\ length hist' = Z.to_nat (maxHistorySize us)
    /\ Forall (fun s => s = None) hist'.
Proof.
  intros Hwf. pose proof (wf_represents us Hwf) as Hrep.
  destruct Hrep as (Hm & Hh & Hnum & Hcap & _ & _ & Hs).
  set (l := retained us) in *.
  destruct (truncate_spec (history us) (maxHistorySize us) (undoCursorHead us)
              l 0 Hm Hh Hcap ltac:(lia) Hs) as (hist1 & Hrun & [Hlen1 Hs1] & _).
  exists hist1. unfold UndoSystem.free. unfold INT_MAX in Hm.
  rewrite u32_small, Hnum by lia.
  replace (undoCursorHead us) with ((undoCursorHead us + Z.of_nat 0) mod
                                    maxHistorySize us) at 1
    by (rewrite Z.add_0_r; apply Z.mod_small; lia).
  split; [by eapply freeCommands_removeAfterTail|]. split; [done|].
  apply Forall_lookup. intros i s Hi.
  pose proof (lookup_lt_Some _ _ _ Hi) as Hlt.
  specialize (Hs1 (Z.of_nat i) ltac:(lia)).
  rewrite Nat2Z.id, Hi, firstn_O, lookup_nil in Hs1. congruence.
Qed.

Lemma free_destroys_every_command_witness :
  wf sampleLog
  /\ exists hist',
       UndoSystem.free sampleLog = Done hist'
       /\ length hist' = Z.to_nat (maxHistorySize sampleLog)
       /\ Forall (fun s => s = None) hist'.
Proof.
  split; [reflexivity|]. apply free_destroys_every_command. reflexivity.
Defined.

(** ** Sequences of undos, of redos and of recordings *)

Lemma redo_iter (k : nat) :
  forall us l a am,
    represents us l a ->
    exists us',
      run (replicate k OpRedo) (us, am)
      = Done (us', (executeAll (take k (drop a l)) am).2)
      /\ represents us'
           (take a l ++ (executeAll (take k (drop a l)) am).1 ++ drop (a + k) l)
           (min (a + k) (length l))
      /\ maxHistorySize us' = maxHistorySize us.
Proof.
  induction k as [|k IH]; intros us l a am Hrep.
  - exists us. pose proof Hrep as (_ & _ & _ & _ & Ha & _).
    rewrite firstn_O. cbn [replicate run executeAll fst snd app].
    rewrite Nat.add_0_r, take_drop, Nat.min_l by lia. done.
  - cbn [replicate run step fst snd].
    pose proof (redo_spec us l a am Hrep) as Hredo.
    destruct (decide (a = length l)) as [Heq|Hne].
    + rewrite Hredo. cbn.
      destruct (IH us l a am Hrep) as (us' & Hrun & Hrep' & Hmax).
      exists us'. rewrite drop_ge, take_nil in * by lia.
      rewrite !(drop_ge l) in * by lia.
      rewrite !Nat.min_r in * by lia. done.
    + destruct Hredo as (c & us1 & Hc & Hrun1 & Hrep1 & _ & Hmax1).
      rewrite Hrun1. cbn.
      destruct (Command_execute c am) as [c' am1] eqn:Hex. cbn [fst snd] in *.
      pose proof (lookup_lt_Some _ _ _ Hc) as Hlt.
      destruct (IH us1 _ _ am1 Hrep1) as (us' & Hrun & Hrep' & Hmax).
      exists us'.
      rewrite drop_insert_lt in Hrun, Hrep' by lia.
      rewrite (drop_insert_lt _ (S a + k)) in Hrep' by lia.
      rewrite (take_S_r _ a c') in Hrep' by (by apply list_lookup_insert_eq).
      rewrite take_insert_ge, length_insert in Hrep' by lia.
      rewrite (drop_S l c a Hc). cbn [take executeAll]. rewrite Hex.
      destruct (executeAll (take k (drop (S a) l)) am1) as [r am2].
      cbn [fst snd] in *. split; [done|]. split; [|congruence].
      rewrite <- app_assoc in Hrep'. cbn [app] in Hrep'.
      replace (a + S k)%nat with (S a + k)%nat by lia. done.
Qed.

(** Any number of [undo] calls on a well-formed log return. They undo the
    applied commands from the newest one down, as many as there are calls and
    applied commands, leave the retained commands and their count as they
    are, and lower the number of applied commands by the number undone. *)
Theorem undo_many (us : UndoSystemData) (am : AnimationManagerData) (k : nat) :
  wf us ->
  exists us',
    run (replicate k OpUndo) (us, am)
    = Done (us', undoAll (rev (drop (Z.to_nat (applied us) - k)
                                    (take (Z.to_nat (applied us)) (retained us))))
                         am)
    /\ wf us'
    /\ retained us' = retained us
    /\ numCommands us' = numCommands us
    /\ applied us' = Z.max 0 (applied us - Z.of_nat k).
Proof.
  intros Hwf. pose proof (wf_represents us Hwf) as Hrep.
  destruct (undo_iter k us _ _ am Hrep) as (us' & Hrun & Hrep' & _).
  exists us'. split; [done|]. split; [by eapply represents_wf|].
  split; [by apply represents_retained in Hrep'|].
  pose proof (represents_applied _ _ _ Hrep') as Happ.
  pose proof (represents_applied _ _ _ Hrep) as Happ0.
  destruct Hrep as (_ & _ & Hnum & _), Hrep' as (_ & _ & Hnum' & _).
  split; [congruence|]. lia.
Qed.

Lemma undo_many_witness :
  wf sampleLog
  /\ exists us',
       run (replicate 5 OpUndo) (sampleLog, sampleStore)
       = Done (us', Command_undo (sampleCommand 1) sampleStore)
       /\ retained us' = retained sampleLog
       /\ applied us' = 0.
Proof.
  split; [reflexivity|].
  destruct (undo_many sampleLog sampleStore 5) as (us' & Hrun & _ & Hret & _ & Happ);
    [reflexivity|].
  exists us'. split; [exact Hrun|]. split; [exact Hret|exact Happ].
Defined.

(** Any number of [redo] calls on a well-formed log return. They execute the
    undone commands from the oldest one up, as many as there are calls and
    undone commands, each on the store the one before left; the log retains
    the commands as their [execute] left them, in the same places, and the
    number of applied commands grows by the number redone. *)
Theorem redo_many (us : UndoSystemData) (am : AnimationManagerData) (k : nat) :
  wf us ->
  let a := Z.to_nat (applied us) in
  let redone := executeAll (take k (drop a (retained us))) am in
  exists us',
    run (replicate k OpRedo) (us, am) = Done (us', redone.2)
    /\ wf us'
    /\ retained us'
       = take a (retained us) ++ redone.1 ++ drop (a + k) (retained us)
    /\ numCommands us' = numCommands us
    /\ applied us' = Z.min (applied us + Z.of_nat k) (numCommands us).
Proof.
  intros Hwf a redone. pose proof (wf_represents us Hwf) as Hrep.
  destruct (redo_iter k us _ _ am Hrep) as (us' & Hrun & Hrep' & _).
  exists us'. split; [done|]. split; [by eapply represents_wf|].
  split; [by apply represents_retained in Hrep'|].
  pose proof (represents_applied _ _ _ Hrep') as Happ.
  pose proof (represents_applied _ _ _ Hrep) as Happ0.
  pose proof Hrep as (_ & _ & Hnum & _ & Ha & _).
  destruct Hrep' as (_ & _ & Hnum' & _).
  rewrite !length_app, length_executeAll, length_take, !length_drop in Hnum'.
  fold a in Ha, Happ0, Hnum', Happ. rewrite length_take, length_drop in Hnum'.
  clear Hrun Hrep. clearbody a. split; lia.
Qed.

Lemma redo_many_witness :
  wf sampleLog
  /\ exists us',
       run (replicate 5 OpRedo) (sampleLog, sampleStore)
       = Done (us', (executeAll [sampleCommand 2; sampleCommand 3] sampleStore).2)
       /\ retained us' = retained sampleLog
       /\ applied us' = 3.
Proof.
  split; [reflexivity|].
  destruct (redo_many sampleLog sampleStore 5) as (us' & Hrun & _ & Hret & _ & Happ);
    [reflexivity|].
  exists us'. split; [exact Hrun|]. split; [exact Hret|exact Happ].
Defined.

(** Recording one command after another on a well-formed log returns. The
    undone commands are dropped, each new command is executed on the store
    the one before left, and the log ends retaining the most recent
    [capacity - 1] of the commands that were applied followed by the new
    ones, all of them applied. *)
Theorem record_many (us : UndoSystemData) (am : AnimationManagerData)
    (c : Command) (cs : list Command) :
  wf us ->
  let recorded := executeAll (c :: cs) am in
  exists us',
    run (OpRecord <$> (c :: cs)) (us, am) = Done (us', recorded.2)
    /\ wf us'
    /\ maxHistorySize us' = maxHistorySize us
    /\ retained us'
       = keepLast (Z.to_nat (maxHistorySize us - 1))
           (take (Z.to_nat (applied us)) (retained us) ++ recorded.1)
    /\ numCommands us'
       = Z.min (applied us + Z.of_nat (length (c :: cs))) (maxHistorySize us - 1)
    /\ applied us' = numCommands us'.
Proof.
  intros Hwf recorded. pose proof (wf_represents us Hwf) as Hrep.
  pose proof (represents_applied _ _ _ Hrep) as Happ0.
  pose proof Hrep as (Hm & Hh & Hnum & Hcap & Ha & _).
  set (l := retained us) in *. set (a := Z.to_nat (applied us)) in *.
  destruct (push_spec us l a c am Hrep) as (us1 & Hrun1 & Hrep1 & Hmax1 & _).
  subst recorded. cbn [executeAll fmap list_fmap run step fst snd].
  rewrite Hrun1. destruct (Command_execute c am) as [c' am1]. cbn [fst snd] in *.
  assert (length (take a l) = a) as Hlen by (rewrite length_take; lia).
  assert ((if bool_decide (Z.of_nat a = maxHistorySize us - 1)
           then drop 1 (take a l) else take a l)
          = (if decide (length (take a l) = Z.to_nat (maxHistorySize us - 1))
             then drop 1 (take a l) else take a l)) as Hsame.
  { rewrite Hlen.
    destruct (decide (a = Z.to_nat (maxHistorySize us - 1))).
    - by rewrite bool_decide_eq_true_2 by lia.
    - by rewrite bool_decide_eq_false_2 by lia. }
  rewrite Hsame in Hrep1. clear Hsame.
  set (l2 := if decide (length (take a l) = Z.to_nat (maxHistorySize us - 1))
             then drop 1 (take a l) else take a l) in *.
  replace (length l2 + 1)%nat with (length (l2 ++ [c'])) in Hrep1
    by (rewrite length_app; cbn; lia).
  destruct (record_all_spec cs us1 _ am1 Hrep1) as (us' & Hrun & Hrep' & Hmax).
  pose proof (length_executeAll cs am1) as Hlenr.
  destruct (executeAll cs am1) as [r am2]. cbn [fst snd mbind outcome_bind] in *.
  rewrite Hmax1 in Hrep', Hmax.
  unfold l2 in Hrep'.
  rewrite <- (keepLast_trim (Z.to_nat (maxHistorySize us - 1)) (take a l)) in Hrep'
    by lia.
  exists us'. split; [done|]. split; [by eapply represents_wf|].
  split; [done|]. split; [by apply represents_retained in Hrep'|].
  pose proof (represents_applied _ _ _ Hrep') as Happ.
  destruct Hrep' as (_ & _ & Hnum' & _).
  unfold keepLast in Hnum', Happ.
  rewrite length_drop, length_app in Hnum', Happ. cbn [length] in *.
  rewrite Hlen in Hnum', Happ. unfold INT_MAX in Hm.
  clearbody a. split; lia.
Qed.

Lemma record_many_witness :
  wf sampleLog
  /\ exists us',
       run (OpRecord <$> [sampleCommand 4; sampleCommand 5; sampleCommand 6])
           (sampleLog, sampleStore)
       = Done (us', (executeAll [sampleCommand 4; sampleCommand 5; sampleCommand 6]
                                sampleStore).2)
       /\ retained us' = [sampleCommand 4; sampleCommand 5; sampleCommand 6]
       /\ numCommands us' = 3.
Proof.
  split; [reflexivity|].
  destruct (record_many sampleLog sampleStore (sampleCommand 4)
              [sampleCommand 5; sampleCommand 6])
    as (us' & Hrun & _ & _ & Hret & Hnum & _); [reflexivity|].
  exists us'. split; [exact Hrun|]. split; [exact Hret|exact Hnum].
Defined.

Lemma represents_cursors us l a :
  represents us l a ->
  cursors us
  = (undoCursorHead us,
     (undoCursorHead us + Z.of_nat a) mod maxHistorySize us,
     Z.of_nat (length l)).
Proof. intros (_ & _ & Hnum & _ & _ & Htail & _). unfold cursors. congruence. Qed.

(** On a well-formed log with an applied command, [undo] followed by [redo]
    undoes and then executes again the newest applied command and brings
    head, tail and count back; with an undone command, [redo] followed by
    [undo] executes the oldest undone command, undoes it as its [execute]
    left it, and brings head, tail and count back. *)
Theorem undo_redo_compose (us : UndoSystemData) (am : AnimationManagerData) :
  wf us ->
  (0 < applied us ->
   exists c us1 us2,
     retained us !! (Z.to_nat (applied us) - 1)%nat = Some c
     /\ UndoSystem.undo us am = Done (us1, Command_undo c am)
     /\ UndoSystem.redo us1 (Command_undo c am)
        = Done (us2, (Command_execute c (Command_undo c am)).2)
     /\ cursors us2 = cursors us
     /\ retained us2
        = <[(Z.to_nat (applied us) - 1)%nat
            := (Command_execute c (Command_undo c am)).1]> (retained us))
  /\ (applied us < numCommands us ->
      exists c us1 us2,
        retained us !! Z.to_nat (applied us) = Some c
        /\ UndoSystem.redo us am = Done (us1, (Command_execute c am).2)
        /\ UndoSystem.undo us1 (Command_execute c am).2
           = Done (us2, Command_undo (Command_execute c am).1
                                     (Command_execute c am).2)
        /\ cursors us2 = cursors us
        /\ retained us2
           = <[Z.to_nat (applied us) := (Command_execute c am).1]> (retained us)).
Proof.
  intros Hwf. pose proof (wf_represents us Hwf) as Hrep.
  pose proof (represents_applied _ _ _ Hrep) as Happ.
  pose proof (represents_cursors _ _ _ Hrep) as Hcur.
  pose proof Hrep as (_ & _ & Hnum & _ & Ha & _).
  set (l := retained us) in *. set (a := Z.to_nat (applied us)) in *.
  split.
  - intros Hpos. destruct a as [|a'] eqn:Ea; [lia|].
    destruct (undo_spec us l (S a') am Hrep)
      as (c & us1 & Hc & Hundo & Hrep1 & _ & Hh1 & Hm1).
    pose proof (lookup_lt_Some _ _ _ Hc) as Hlt.
    pose proof (redo_spec us1 l a' (Command_undo c am) Hrep1) as Hredo.
    destruct (decide (a' = length l)) as [|_]; [lia|].
    destruct Hredo as (c0 & us2 & Hc0 & Hredo & Hrep2 & Hh2 & Hm2).
    assert (c0 = c) as -> by congruence.
    exists c, us1, us2. replace (S a' - 1)%nat with a' by lia.
    do 3 (split; [done|]). split.
    + rewrite (represents_cursors _ _ _ Hrep2), Hcur, length_insert. congruence.
    + by apply represents_retained in Hrep2.
  - intros Hlt. pose proof (redo_spec us l a am Hrep) as Hredo.
    destruct (decide (a = length l)) as [|_]; [lia|].
    destruct Hredo as (c & us1 & Hc & Hredo & Hrep1 & Hh1 & Hm1).
    destruct (undo_spec us1 _ (S a) (Command_execute c am).2 Hrep1)
      as (c0 & us2 & Hc0 & Hundo & Hrep2 & _ & Hh2 & Hm2).
    rewrite list_lookup_insert_eq in Hc0 by lia. injection Hc0 as <-.
    exists c, us1, us2. do 3 (split; [done|]). split.
    + rewrite (represents_cursors _ _ _ Hrep2), Hcur, length_insert. congruence.
    + by apply represents_retained in Hrep2.
Qed.

Lemma undo_redo_compose_witness :
  wf sampleLog
  /\ (exists c us1 us2,
        retained sampleLog !! 0%nat = Some c
        /\ UndoSystem.undo sampleLog sampleStore = Done (us1, Command_undo c sampleStore)
        /\ UndoSystem.redo us1 (Command_undo c sampleStore)
           = Done (us2, (Command_execute c (Command_undo c sampleStore)).2)
        /\ cursors us2 = cursors sampleLog)
  /\ (exists c us1 us2,
        retained sampleLog !! 1%nat = Some c
        /\ UndoSystem.redo sampleLog sampleStore
           = Done (us1, (Command_execute c sampleStore).2)
        /\ UndoSystem.undo us1 (Command_execute c sampleStore).2
           = Done (us2, Command_undo (Command_execute c sampleStore).1
                                     (Command_execute c sampleStore).2)
        /\ cursors us2 = cursors sampleLog).
Proof.
  split; [reflexivity|].
  destruct (undo_redo_compose sampleLog sampleStore) as [Hur Hru]; [reflexivity|].
  split.
  - destruct Hur as (c & us1 & us2 & Hc & Hu & Hr & Hcur & _); [reflexivity|].
    exists c, us1, us2. split; [exact Hc|]. split; [exact Hu|].
    split; [exact Hr|exact Hcur].
  - destruct Hru as (c & us1 & us2 & Hc & Hr & Hu & Hcur & _); [reflexivity|].
    exists c, us1, us2. split; [exact Hc|]. split; [exact Hr|].
    split; [exact Hu|exact Hcur].
Defined.

(** ** What a property change touches *)

(** Executing a [ModifyU8Vec4Command] leaves the command as it is, every
    other object as it is and the parent/child relation as it is. When the
    target is in the store, its selected property receives the new value,
    its other property keeps its value, and the store is notified once, for
    the target. Executing the command a second time changes no object. *)
Theorem modify_touches_one_property (objId : AnimObjId) (oldVec newVec : u8vec4)
    (propType : U8Vec4PropType) (am : AnimationManagerData) :
  let c := ModifyU8Vec4Command objId oldVec newVec propType in
  let am' := (Command_execute c am).2 in
  (Command_execute c am).1 = c
  /\ (forall d, d <> objId -> getMutableObject am' d = getMutableObject am d)
  /\ (forall obj, getMutableObject am objId = Some obj ->
        exists obj',
          getMutableObject am' objId = Some obj'
          /\ getProp propType obj' = newVec
          /\ (forall other, other <> propType ->
                getProp other obj' = getProp other obj)
          /\ stateUpdates am' = stateUpdates am ++ [objId])
  /\ childrenOf am' = childrenOf am
  /\ objects (Command_execute c am').2 = objects am'.
Proof.
  cbn [Command_execute fst snd].
  destruct (modify_execute_objects objId newVec propType am) as [Ho Hc].
  split; [done|]. split; [|split; [|split]].
  - intros d Hd. unfold getMutableObject. rewrite Ho. unfold writeProp.
    destruct (objects am !! objId); [|done]. by rewrite lookup_insert_ne.
  - intros obj Hobj. exists (setProp propType newVec obj).
    unfold getMutableObject in *. rewrite Ho. unfold writeProp. rewrite Hobj.
    rewrite lookup_insert_eq. split; [done|]. split; [by destruct propType|].
    split; [intros other Hne; by destruct other, propType|].
    unfold ModifyU8Vec4Command_execute, getMutableObject. rewrite Hobj.
    by destruct propType.
  - done.
  - rewrite (proj1 (modify_execute_objects _ _ _ _)), Ho.
    apply writeProp_writeProp.
Qed.

Lemma writeProp_current pt v id objs obj :
  objs !! id = Some obj -> getProp pt obj = v -> writeProp pt v id objs = objs.
Proof.
  intros Hobj Hv. unfold writeProp. rewrite Hobj. apply insert_id.
  rewrite Hobj. f_equal. subst v. by destruct pt, obj.
Qed.

(** Recording a property change on a well-formed log and undoing it returns.
    The objects are then those of the store before the recording with the old
    value of the command written to the target: they are the objects before
    the recording when the old value is the one the target held, and the
    store is untouched when the target is not in it. The recorded command
    stays in the log, undone. *)
Theorem record_then_undo (us : UndoSystemData) (am : AnimationManagerData)
    (objId : AnimObjId) (oldVec newVec : u8vec4) (propType : U8Vec4PropType) :
  wf us ->
  exists us1 am1 us2 am2,
    UndoSystem.setU8Vec4Prop us objId oldVec newVec propType am = Done (us1, am1)
    /\ UndoSystem.undo us1 am1 = Done (us2, am2)
    /\ objects am2 = writeProp propType oldVec objId (objects am)
    /\ childrenOf am2 = childrenOf am
    /\ (forall obj, getMutableObject am objId = Some obj ->
          getProp propType obj = oldVec -> objects am2 = objects am)
    /\ (getMutableObject am objId = None -> am2 = am)
    /\ retained us2 = retained us1
    /\ applied us2 = numCommands us2 - 1.
Proof.
  intros Hwf. pose proof (wf_represents us Hwf) as Hrep.
  set (c := ModifyU8Vec4Command objId oldVec newVec propType).
  destruct (push_spec us _ _ c am Hrep) as (us1 & Hpush & Hrep1 & _).
  rewrite Nat.add_1_r in Hrep1. cbn [Command_execute fst snd] in *.
  destruct (undo_spec us1 _ _ (ModifyU8Vec4Command_execute objId newVec propType am)
              Hrep1) as (c0 & us2 & Hc0 & Hundo & Hrep2 & _).
  rewrite list_lookup_middle in Hc0 by done. injection Hc0 as <-.
  cbn [Command_undo] in Hundo.
  exists us1, (ModifyU8Vec4Command_execute objId newVec propType am), us2,
         (ModifyU8Vec4Command_undo objId oldVec propType
            (ModifyU8Vec4Command_execute objId newVec propType am)).
  assert (objects (ModifyU8Vec4Command_undo objId oldVec propType
                     (ModifyU8Vec4Command_execute objId newVec propType am))
          = writeProp propType oldVec objId (objects am)) as Hobjs.
  { rewrite (proj1 (modify_undo_objects _ _ _ _)),
            (proj1 (modify_execute_objects _ _ _ _)).
    apply writeProp_writeProp. }
  split; [exact Hpush|]. split; [exact Hundo|]. split; [exact Hobjs|].
  split.
  { by rewrite (proj2 (modify_undo_objects _ _ _ _)),
               (proj2 (modify_execute_objects _ _ _ _)). }
  split.
  { intros obj Hobj Hold. rewrite Hobjs. by eapply writeProp_current. }
  split.
  { intros Hnone. unfold ModifyU8Vec4Command_execute. rewrite Hnone.
    unfold ModifyU8Vec4Command_undo. by rewrite Hnone. }
  rewrite (represents_retained _ _ _ Hrep1), (represents_retained _ _ _ Hrep2).
  split; [done|]. rewrite (represents_applied _ _ _ Hrep2).
  destruct Hrep2 as (_ & _ & -> & _). rewrite length_app. cbn. lia.
Qed.

Lemma record_then_undo_witness :
  wf sampleLog
  /\ exists us1 am1 us2 am2,
       UndoSystem.setU8Vec4Prop sampleLog 2 yellow red StrokeColor sampleStore
       = Done (us1, am1)
       /\ UndoSystem.undo us1 am1 = Done (us2, am2)
       /\ objects am2 = objects sampleStore
       /\ applied us2 = numCommands us2 - 1.
Proof.
  split; [reflexivity|].
  destruct (record_then_undo sampleLog sampleStore 2 yellow red StrokeColor)
    as (us1 & am1 & us2 & am2 & Hrec & Hundo & _ & _ & Hsame & _ & _ & Happ);
    [reflexivity|].
  exists us1, am1, us2, am2. split; [exact Hrec|]. split; [exact Hundo|].
  split; [|exact Happ].
  apply (Hsame (mkAnimObject green yellow)); reflexivity.
Defined.

(** ** The cascading command, recorded and undone *)

Lemma breadthFirstWalk_ext am1 am2 :
  childrenOf am1 = childrenOf am2 ->
  forall fuel queue, breadthFirstWalk fuel am1 queue = breadthFirstWalk fuel am2 queue.
Proof.
  intros Heq. induction fuel as [|fuel IH]; intros queue; [done|].
  destruct queue as [|x rest]; [done|]. cbn.
  unfold getChildren. rewrite Heq. f_equal. apply IH.
Qed.

Lemma descendants_ext am1 am2 id :
  childrenOf am1 = childrenOf am2 ->
  descendantsBreadthFirst am1 id = descendantsBreadthFirst am2 id.
Proof.
  intros Heq. unfold descendantsBreadthFirst, edgeCount, getChildren.
  rewrite Heq. by apply breadthFirstWalk_ext.
Qed.

Lemma record_undo_any us c am :
  wf us ->
  exists us1 us2,
    UndoSystem.pushAndExecuteCommand us c am = Done (us1, (Command_execute c am).2)
    /\ UndoSystem.undo us1 (Command_execute c am).2
       = Done (us2, Command_undo (Command_execute c am).1 (Command_execute c am).2).
Proof.
  intros Hwf. pose proof (wf_represents us Hwf) as Hrep.
  destruct (push_spec us _ _ c am Hrep) as (us1 & Hpush & Hrep1 & _).
  rewrite Nat.add_1_r in Hrep1.
  destruct (undo_spec us1 _ _ (Command_execute c am).2 Hrep1)
    as (c0 & us2 & Hc0 & Hundo & _).
  rewrite list_lookup_middle in Hc0 by done. injection Hc0 as <-.
  by exists us1, us2.
Qed.

Lemma cascade_execute_undo objId pt P am obj :
  getMutableObject am objId = Some obj ->
  NoDup (descendantsBreadthFirst am objId) ->
  objId ∉ descendantsBreadthFirst am objId ->
  let c' := (Command_execute (ApplyU8Vec4ToChildrenCommand objId pt P) am).1 in
  let am1 := (Command_execute (ApplyU8Vec4ToChildrenCommand objId pt P) am).2 in
  childrenOf (Command_undo c' am1) = childrenOf am
  /\ forall d,
       objects (Command_undo c' am1) !! d
       = if decide (d ∈ descendantsBreadthFirst am objId)
         then (fun o => setProp pt (getProp pt o)
                          (set_fillColorStart (getProp pt obj) o))
                <$> objects am !! d
         else objects am !! d.
Proof.
  intros Hobj Hnd Hnot. cbn [Command_execute].
  unfold ApplyU8Vec4ToChildrenCommand_execute. rewrite Hobj.
  unfold getMutableObject in Hobj.
  pose proof (apply_fold objId pt obj _ Hnd Hnot P am Hobj) as Hfold.
  destruct (apply_fold_frame objId pt (descendantsBreadthFirst am objId) P am)
    as (Hch & Hup & Hno).
  destruct (foldl (applyToChild objId pt) (P, am)
                  (descendantsBreadthFirst am objId)) as [P' am1].
  cbn [fst snd] in *. cbn [Command_undo].
  unfold ApplyU8Vec4ToChildrenCommand_undo, getMutableObject.
  cbn [updateObjectState objects].
  destruct (proj2 (Hfold objId) Hnot) as [_ Hsame]. rewrite Hsame, Hobj.
  rewrite (descendants_ext (updateObjectState am1 objId) am objId) by done.
  pose proof (restore_fold pt P' (descendantsBreadthFirst am objId)
                (updateObjectState am1 objId)) as Hres.
  cbn [updateObjectState objects childrenOf].
  split; [by rewrite (proj1 (proj2 (Hres objId)))|].
  intros d. rewrite (proj1 (Hres d)). cbn [updateObjectState objects].
  destruct (decide (d ∈ descendantsBreadthFirst am objId)) as [Hin|Hnin].
  - destruct (objects am !! d) as [o|] eqn:Ho.
    + destruct (proj1 (Hfold d) Hin o Ho) as [HP Ham1].
      unfold restored. by rewrite Ham1, HP.
    + destruct (Hno d Ho) as [-> _]. done.
  - by destruct (proj2 (Hfold d) Hnin) as [_ ->].
Qed.

(** Recording the cascading command for the fill colour on a well-formed log
    and undoing it returns and restores every object of the store, when the
    target is in the store and the traversal reaches no object twice and not
    the target itself. In between, every descendant in the store has the
    fill colour of the target. *)
Theorem cascade_fill_round_trip (us : UndoSystemData)
    (am : AnimationManagerData) (objId : AnimObjId) (obj : AnimObject) :
  wf us ->
  getMutableObject am objId = Some obj ->
  NoDup (descendantsBreadthFirst am objId) ->
  objId ∉ descendantsBreadthFirst am objId ->
  exists us1 am1 us2 am2,
    UndoSystem.applyU8Vec4ToChildren us objId FillColor am = Done (us1, am1)
    /\ UndoSystem.undo us1 am1 = Done (us2, am2)
    /\ (forall d o, d ∈ descendantsBreadthFirst am objId ->
          getMutableObject am d = Some o ->
          getMutableObject am1 d
          = Some (set_fillColorStart (_fillColorStart obj) o))
    /\ objects am2 = objects am
    /\ childrenOf am2 = childrenOf am.
Proof.
  intros Hwf Hobj Hnd Hnot.
  set (c := ApplyU8Vec4ToChildrenCommand objId FillColor ∅).
  destruct (record_undo_any us c am Hwf) as (us1 & us2 & Hpush & Hundo).
  destruct (cascade_execute_undo objId FillColor ∅ am obj Hobj Hnd Hnot)
    as [Hch Hlook].
  exists us1, (Command_execute c am).2, us2,
         (Command_undo (Command_execute c am).1 (Command_execute c am).2).
  split; [exact Hpush|]. split; [exact Hundo|]. split; [|split; [|exact Hch]].
  - intros d o Hin Ho. subst c. cbn [Command_execute].
    unfold ApplyU8Vec4ToChildrenCommand_execute. rewrite Hobj.
    unfold getMutableObject in *.
    pose proof (apply_fold objId FillColor obj _ Hnd Hnot ∅ am Hobj d) as [Hfold _].
    destruct (foldl (applyToChild objId FillColor) (∅, am)
                    (descendantsBreadthFirst am objId)) as [P' am1].
    cbn [fst snd updateObjectState objects] in *. by apply Hfold.
  - apply map_eq. intros d. fold c in Hlook. rewrite Hlook.
    destruct (decide _); [|done].
    destruct (objects am !! d) as [[f s]|]; done.
Qed.

Lemma cascade_fill_round_trip_witness :
  wf sampleLog
  /\ exists us1 am1 us2 am2,
       UndoSystem.applyU8Vec4ToChildren sampleLog 1 FillColor sampleStore
       = Done (us1, am1)
       /\ UndoSystem.undo us1 am1 = Done (us2, am2)
       /\ getMutableObject am1 4 = Some (mkAnimObject red red)
       /\ objects am2 = objects sampleStore.
Proof.
  split; [reflexivity|].
  assert (NoDup (descendantsBreadthFirst sampleStore 1)) as Hnd.
  { vm_compute. repeat (apply NoDup_cons; split;
      [intros Hin; repeat (apply elem_of_cons in Hin as [Hin|Hin]; [discriminate|]);
       by apply not_elem_of_nil in Hin|]). apply NoDup_nil. done. }
  assert (1 ∉ descendantsBreadthFirst sampleStore 1) as Hnot.
  { vm_compute. intros Hin.
    repeat (apply elem_of_cons in Hin as [Hin|Hin]; [discriminate|]).
    by apply not_elem_of_nil in Hin. }
  destruct (cascade_fill_round_trip sampleLog sampleStore 1 (mkAnimObject red blue))
    as (us1 & am1 & us2 & am2 & Hrec & Hundo & Hmid & Hobjs & _);
    [reflexivity|reflexivity|exact Hnd|exact Hnot|].
  exists us1, am1, us2, am2. split; [exact Hrec|]. split; [exact Hundo|].
  split; [|exact Hobjs].
  apply (Hmid 4 (mkAnimObject blue red)); [|reflexivity].
  vm_compute. do 2 apply list_elem_of_further. apply list_elem_of_here.
Defined.

(** Recording the cascading command for the stroke colour on a well-formed
    log and undoing it returns, under the same conditions, and does not
    restore the store: every descendant in the store keeps its stroke colour
    throughout and is left with the stroke colour of the target as its fill
    colour. Objects the traversal does not reach are as before. *)
Theorem cascade_stroke_undo_keeps_overwritten_fill (us : UndoSystemData)
    (am : AnimationManagerData) (objId : AnimObjId) (obj : AnimObject) :
  wf us ->
  getMutableObject am objId = Some obj ->
  NoDup (descendantsBreadthFirst am objId) ->
  objId ∉ descendantsBreadthFirst am objId ->
  exists us1 am1 us2 am2,
    UndoSystem.applyU8Vec4ToChildren us objId StrokeColor am = Done (us1, am1)
    /\ UndoSystem.undo us1 am1 = Done (us2, am2)
    /\ (forall d o, d ∈ descendantsBreadthFirst am objId ->
          getMutableObject am d = Some o ->
          getMutableObject am2 d
          = Some (mkAnimObject (_strokeColorStart obj) (_strokeColorStart o)))
    /\ (forall d, d ∉ descendantsBreadthFirst am objId ->
          getMutableObject am2 d = getMutableObject am d).
Proof.
  intros Hwf Hobj Hnd Hnot.
  set (c := ApplyU8Vec4ToChildrenCommand objId StrokeColor ∅).
  destruct (record_undo_any us c am Hwf) as (us1 & us2 & Hpush & Hundo).
  destruct (cascade_execute_undo objId StrokeColor ∅ am obj Hobj Hnd Hnot)
    as [_ Hlook].
  exists us1, (Command_execute c am).2, us2,
         (Command_undo (Command_execute c am).1 (Command_execute c am).2).
  split; [exact Hpush|]. split; [exact Hundo|].
  fold c in Hlook. unfold getMutableObject. split.
  - intros d o Hin Ho. by rewrite Hlook, decide_True, Ho.
  - intros d Hnin. by rewrite Hlook, decide_False.
Qed.

Lemma cascade_stroke_undo_keeps_overwritten_fill_witness :
  wf sampleLog
  /\ exists us1 am1 us2 am2,
       UndoSystem.applyU8Vec4ToChildren sampleLog 1 StrokeColor sampleStore
       = Done (us1, am1)
       /\ UndoSystem.undo us1 am1 = Done (us2, am2)
       /\ getMutableObject sampleStore 2 = Some (mkAnimObject green yellow)
       /\ getMutableObject am2 2 = Some (mkAnimObject blue yellow).
Proof.
  split; [reflexivity|].
  assert (NoDup (descendantsBreadthFirst sampleStore 1)) as Hnd.
  { vm_compute. repeat (apply NoDup_cons; split;
      [intros Hin; repeat (apply elem_of_cons in Hin as [Hin|Hin]; [discriminate|]);
       by apply not_elem_of_nil in Hin|]). apply NoDup_nil. done. }
  assert (1 ∉ descendantsBreadthFirst sampleStore 1) as Hnot.
  { vm_compute. intros Hin.
    repeat (apply elem_of_cons in Hin as [Hin|Hin]; [discriminate|]).
    by apply not_elem_of_nil in Hin. }
  destruct (cascade_stroke_undo_keeps_overwritten_fill sampleLog sampleStore 1
              (mkAnimObject red blue))
    as (us1 & am1 & us2 & am2 & Hrec & Hundo & Hdesc & _);
    [reflexivity|reflexivity|exact Hnd|exact Hnot|].
  exists us1, am1, us2, am2. split; [exact Hrec|]. split; [exact Hundo|].
  split; [reflexivity|].
  apply (Hdesc 2 (mkAnimObject green yellow)); [|reflexivity].
  vm_compute. apply list_elem_of_here.
Defined.

Lemma apply_to_children_execute_witness :
  exists oldProps' am',
    Command_execute (ApplyU8Vec4ToChildrenCommand 1 FillColor {[ 2 := blue; 9 := red ]})
                    sampleStore
    = (ApplyU8Vec4ToChildrenCommand 1 FillColor oldProps', am')
    /\ oldProps' !! 2 = Some green
    /\ oldProps' !! 9 = Some red
    /\ getMutableObject am' 2 = Some (mkAnimObject red yellow)
    /\ stateUpdates am' = [1].
Proof.
  assert (NoDup (descendantsBreadthFirst sampleStore 1)) as Hnd.
  { vm_compute. repeat (apply NoDup_cons; split;
      [intros Hin; repeat (apply elem_of_cons in Hin as [Hin|Hin]; [discriminate|]);
       by apply not_elem_of_nil in Hin|]). apply NoDup_nil. done. }
  assert (1 ∉ descendantsBreadthFirst sampleStore 1) as Hnot.
  { vm_compute. intros Hin.
    repeat (apply elem_of_cons in Hin as [Hin|Hin]; [discriminate|]).
    by apply not_elem_of_nil in Hin. }
  destruct (apply_to_children_execute sampleStore 1 FillColor
              {[ 2 := blue; 9 := red ]} (mkAnimObject red blue))
    as (P' & am' & Hex & Hin & Hout & Hupd & _);
    [reflexivity|exact Hnd|exact Hnot|].
  exists P', am'. split; [exact Hex|].
  destruct (Hin 2 (mkAnimObject green yellow)) as [HP Hobj];
    [vm_compute; apply list_elem_of_here|reflexivity|].
  destruct (Hout 9) as [HP9 _].
  { vm_compute. intros H9.
    repeat (apply elem_of_cons in H9 as [H9|H9]; [discriminate|]).
    by apply not_elem_of_nil in H9. }
  split; [exact HP|]. split; [rewrite HP9; reflexivity|].
  split; [exact Hobj|exact Hupd].
Defined.

(** ** What the log never changes in the store *)

Lemma apply_fold_dom objId pt ds :
  forall P am d,
    is_Some (objects (foldl (applyToChild objId pt) (P, am) ds).2 !! d)
    <-> is_Some (objects am !! d).
Proof.
  induction ds as [|x ds IH]; intros P am d; [done|].
  cbn [foldl].
  assert (is_Some (objects (applyToChild objId pt (P, am) x).2 !! d)
          <-> is_Some (objects am !! d)) as Hstep.
  { unfold applyToChild, getMutableObject.
    destruct (objects am !! x) as [ox|] eqn:Hx; [|done].
    destruct (objects am !! objId) as [obj|]; [|done].
    destruct pt; cbn; rewrite lookup_insert_is_Some;
      (split; [intros [<-|[_ H]]; [by rewrite Hx|done]
              |intros H; destruct (decide (x = d)); auto]). }
  destruct (applyToChild objId pt (P, am) x) as [P1 am1]. cbn [fst snd] in *.
  by rewrite IH.
Qed.

Lemma execute_keeps_store c am :
  childrenOf (Command_execute c am).2 = childrenOf am
  /\ forall d, is_Some (objects (Command_execute c am).2 !! d)
               <-> is_Some (objects am !! d).
Proof.
  destruct c as [objId oldVec newVec pt|objId pt P]; cbn [Command_execute].
  - destruct (modify_execute_objects objId newVec pt am) as [Ho Hc].
    cbn [snd]. split; [done|]. intros d. rewrite Ho. unfold writeProp.
    destruct (objects am !! objId) as [o|] eqn:Hobj; [|done].
    rewrite lookup_insert_is_Some.
    split; [intros [<-|[_ H]]; [by rewrite Hobj|done]
           |intros H; destruct (decide (objId = d)); auto].
  - unfold ApplyU8Vec4ToChildrenCommand_execute.
    destruct (getMutableObject am objId); [|done].
    destruct (apply_fold_frame objId pt (descendantsBreadthFirst am objId) P am)
      as (Hch & _ & _).
    pose proof (apply_fold_dom objId pt (descendantsBreadthFirst am objId) P am)
      as Hdom.
    destruct (foldl (applyToChild objId pt) (P, am)
                    (descendantsBreadthFirst am objId)) as [P' am1].
    cbn in *. done.
Qed.

Lemma undo_keeps_store c am :
  childrenOf (Command_undo c am) = childrenOf am
  /\ forall d, is_Some (objects (Command_undo c am) !! d)
               <-> is_Some (objects am !! d).
Proof.
  destruct c as [objId oldVec newVec pt|objId pt P]; cbn [Command_undo].
  - destruct (modify_undo_objects objId oldVec pt am) as [Ho Hc].
    split; [done|]. intros d. rewrite Ho. unfold writeProp.
    destruct (objects am !! objId) as [o|] eqn:Hobj; [|done].
    rewrite lookup_insert_is_Some.
    split; [intros [<-|[_ H]]; [by rewrite Hobj|done]
           |intros H; destruct (decide (objId = d)); auto].
  - unfold ApplyU8Vec4ToChildrenCommand_undo.
    destruct (getMutableObject am objId); [|done].
    pose proof (restore_fold pt P (descendantsBreadthFirst am objId) am) as Hres.
    cbn [updateObjectState objects childrenOf].
    split; [by rewrite (proj1 (proj2 (Hres objId)))|].
    intros d. rewrite (proj1 (Hres d)). destruct (decide _); [|done].
    unfold restored. destruct (objects am !! d); [|done].
    split; eauto.
Qed.

Lemma run_keeps_store ops :
  forall us l a am,
    represents us l a ->
    exists us' am',
      run ops (us, am) = Done (us', am')
      /\ childrenOf am' = childrenOf am
      /\ forall d, is_Some (objects am' !! d) <-> is_Some (objects am !! d).
Proof.
  induction ops as [|o ops IH]; intros us l a am Hrep.
  - by exists us, am.
  - assert (exists us1 am1 l1 a1,
              step o (us, am) = Done (us1, am1) /\ represents us1 l1 a1
              /\ childrenOf am1 = childrenOf am
              /\ forall d, is_Some (objects am1 !! d) <-> is_Some (objects am !! d))
      as (us1 & am1 & l1 & a1 & Hstep & Hrep1 & Hch1 & Hdom1).
    { destruct o as [c| |]; cbn [step fst snd].
      - destruct (push_spec us l a c am Hrep) as (us1 & Hpush & Hrep1 & _).
        destruct (execute_keeps_store c am) as [Hch Hdom]. eauto 10.
      - pose proof (undo_spec us l a am Hrep) as Hundo. destruct a as [|a'].
        + exists us, am, l, 0%nat. done.
        + destruct Hundo as (c & us1 & _ & Hundo & Hrep1 & _).
          destruct (undo_keeps_store c am) as [Hch Hdom]. eauto 10.
      - pose proof (redo_spec us l a am Hrep) as Hredo.
        destruct (decide (a = length l)).
        + exists us, am, l, a. done.
        + destruct Hredo as (c & us1 & _ & Hredo & Hrep1 & _).
          destruct (execute_keeps_store c am) as [Hch Hdom]. eauto 10. }
    destruct (IH us1 l1 a1 am1 Hrep1) as (us' & am' & Hrun & Hch & Hdom).
    exists us', am'. cbn [run]. rewrite Hstep. cbn.
    split; [done|]. split; [congruence|].
    intros d. by rewrite Hdom.
Qed.

(** Whatever is recorded, undone and redone on a well-formed log, the store
    ends with the objects it had, none added and none removed, and with the
    parent/child relation it had: every object has the descendants it had. *)
Theorem log_keeps_objects_and_graph (us : UndoSystemData)
    (am : AnimationManagerData) (ops : list Op) :
  wf us ->
  exists us' am',
    run ops (us, am) = Done (us', am')
    /\ dom (objects am') = dom (objects am)
    /\ childrenOf am' = childrenOf am
    /\ forall id, descendantsBreadthFirst am' id = descendantsBreadthFirst am id.
Proof.
  intros Hwf. pose proof (wf_represents us Hwf) as Hrep.
  destruct (run_keeps_store ops us _ _ am Hrep) as (us' & am' & Hrun & Hch & Hdom).
  exists us', am'. split; [done|]. split; [|split; [done|]].
  - apply set_eq. intros d. rewrite !elem_of_dom. apply Hdom.
  - intros id. by apply descendants_ext.
Qed.

Lemma log_keeps_objects_and_graph_witness :
  wf sampleLog
  /\ exists us' am',
       run [OpRecord (ApplyU8Vec4ToChildrenCommand 1 StrokeColor ∅); OpUndo;
            OpRecord (sampleCommand 9); OpRedo]
           (sampleLog, sampleStore) = Done (us', am')
       /\ dom (objects am') = dom (objects sampleStore)
       /\ childrenOf am' = childrenOf sampleStore.
Proof.
  split; [reflexivity|].
  destruct (log_keeps_objects_and_graph sampleLog sampleStore
              [OpRecord (ApplyU8Vec4ToChildrenCommand 1 StrokeColor ∅); OpUndo;
               OpRecord (sampleCommand 9); OpRedo])
    as (us' & am' & Hrun & Hdom & Hch & _); [reflexivity|].
  exists us', am'. split; [exact Hrun|]. split; [exact Hdom|exact Hch].
Defined.

Lemma modify_touches_one_property_witness :
  let c := ModifyU8Vec4Command 2 green red FillColor in
  let am' := (Command_execute c sampleStore).2 in
  getMutableObject am' 3 = getMutableObject sampleStore 3
  /\ (exists obj',
        getMutableObject am' 2 = Some obj'
        /\ getProp FillColor obj' = red
        /\ getProp StrokeColor obj' = yellow
        /\ stateUpdates am' = [2])
  /\ objects (Command_execute c am').2 = objects am'.
Proof.
  intros c am'.
  destruct (modify_touches_one_property 2 green red FillColor sampleStore)
    as (_ & Hother & Htarget & _ & Hidem).
  split; [apply Hother; discriminate|]. split; [|exact Hidem].
  destruct (Htarget (mkAnimObject green yellow)) as (obj' & Hget & Hnew & Hkeep & Hupd);
    [reflexivity|].
  exists obj'. split; [exact Hget|]. split; [exact Hnew|].
  split; [|exact Hupd]. apply (Hkeep StrokeColor). discriminate.
Defined.
